(** * siesta: a declarative reader for binary files

    A shallow embedding of [src/binary.py], [src/format.py],
    [src/field_data.py] and [src/reader.py], followed by the properties of
    the reader that the specification states.

    Python integers are unbounded, so offsets and lengths are [Z].  A
    [bytes] object is a list of bytes.  A [dict] keyed by strings is a
    [gmap string _].  Exceptions are an explicit outcome; the state an
    exception leaves behind (the reader's [vars]) is kept, as in Python. *)

From Stdlib Require Import ZArith String List Ascii Lia.
From Stdlib Require Import DecimalString HexadecimalString Strings.Byte.
From stdpp Require Import gmap strings list.

Set Warnings "-register-all,-clear-no-such-hyp".
Open Scope string_scope.
Open Scope Z_scope.

(** ** Exceptions and outcomes *)

Inductive exn :=
| KeyError (key : string)
| ValueError (msg : string)
| OSError
| AttributeError
| AssertionError.

(** [OutOfFuel] is not a Python outcome: it marks a run of the model that
    was cut off before the program finished. *)
Inductive outcome (A : Type) :=
| Ok (a : A)
| Raise (e : exn)
| OutOfFuel.
Arguments Ok {A} a.
Arguments Raise {A} e.
Arguments OutOfFuel {A}.

#[global] Instance outcome_ret : MRet outcome := fun A a => Ok a.
#[global] Instance outcome_bind : MBind outcome := fun A B k m =>
  match m with
  | Ok a => k a
  | Raise e => Raise e
  | OutOfFuel => OutOfFuel
  end.

(** ** src/binary.py *)

Inductive Endianness := little | big.

Definition bytes := list byte.

(** [Callable[[bytes], bytes] | None] *)
Definition PreprocessorFunc := option (bytes -> bytes).

(** [BinaryFile] names a file by its path; the model holds the bytes stored
    there.  [BinaryBlock] keeps the four attributes its constructor sets. *)
Inductive Binary :=
| BinaryFile (contents : bytes) (endianness : Endianness)
| BinaryBlockObj (underlying_bin : Binary) (offset : Z)
                 (endianness : Endianness) (length : Z).

Definition endianness (self : Binary) : Endianness :=
  match self with
  | BinaryFile _ e => e
  | BinaryBlockObj _ _ e _ => e
  end.

(** [BinaryBlock.__init__] *)
Definition BinaryBlock (underlying : Binary) (offset length : Z) : Binary :=
  BinaryBlockObj underlying offset (endianness underlying) length.

(** [file.seek(start)] on a file opened with ["rb"]: a negative position is
    refused by the operating system. *)
Definition file_seek (start : Z) : outcome Z :=
  if start <? 0 then Raise OSError else Ok start.

(** [file.read(length)] at position [pos]: [-1] reads to the end of the
    file, a smaller length is refused, any other length reads at most that
    many bytes. *)
Definition file_read (contents : bytes) (pos length : Z) : outcome bytes :=
  if length <? -1 then
    Raise (ValueError "read length must be non-negative or -1")
  else if length =? -1 then Ok (drop (Z.to_nat pos) contents)
  else Ok (take (Z.to_nat length) (drop (Z.to_nat pos) contents)).

Definition apply_func (func : PreprocessorFunc) (data : bytes) : bytes :=
  match func with
  | Some f => f data
  | None => data
  end.

Fixpoint get_bytes (self : Binary) (start length : Z) (func : PreprocessorFunc)
  : outcome bytes :=
  match self with
  | BinaryFile contents _ =>
      pos ← file_seek start;
      data ← file_read contents pos length;
      mret (apply_func func data)
  | BinaryBlockObj underlying_bin offset _ _ =>
      get_bytes underlying_bin (start + offset) length func
  end.

Definition get_size (self : Binary) : Z :=
  match self with
  | BinaryFile contents _ => Z.of_nat (List.length contents)
  | BinaryBlockObj _ _ _ length => length
  end.

(** [int.from_bytes(bs, byteorder, signed=...)] *)
Fixpoint le_value (bs : bytes) : Z :=
  match bs with
  | [] => 0
  | b :: rest => Z.of_N (Byte.to_N b) + 256 * le_value rest
  end.

Definition unsigned_value (bs : bytes) (byteorder : Endianness) : Z :=
  match byteorder with
  | little => le_value bs
  | big => le_value (rev bs)
  end.

Definition int_from_bytes (bs : bytes) (byteorder : Endianness) (signed : bool)
  : Z :=
  let u := unsigned_value bs byteorder in
  let nbits := 8 * Z.of_nat (List.length bs) in
  if signed && negb (nbits =? 0) && (2 ^ (nbits - 1) <=? u)
  then u - 2 ^ nbits
  else u.

Definition get_i64 (self : Binary) (loc : Z) (func : PreprocessorFunc) :=
  bs ← get_bytes self loc 8 func; mret (int_from_bytes bs (endianness self) true).
Definition get_u64 (self : Binary) (loc : Z) (func : PreprocessorFunc) :=
  bs ← get_bytes self loc 8 func; mret (int_from_bytes bs (endianness self) false).
Definition get_i32 (self : Binary) (loc : Z) (func : PreprocessorFunc) :=
  bs ← get_bytes self loc 4 func; mret (int_from_bytes bs (endianness self) true).
Definition get_u32 (self : Binary) (loc : Z) (func : PreprocessorFunc) :=
  bs ← get_bytes self loc 4 func; mret (int_from_bytes bs (endianness self) false).
Definition get_i16 (self : Binary) (loc : Z) (func : PreprocessorFunc) :=
  bs ← get_bytes self loc 2 func; mret (int_from_bytes bs (endianness self) true).
Definition get_u16 (self : Binary) (loc : Z) (func : PreprocessorFunc) :=
  bs ← get_bytes self loc 2 func; mret (int_from_bytes bs (endianness self) false).
Definition get_i8 (self : Binary) (loc : Z) (func : PreprocessorFunc) :=
  bs ← get_bytes self loc 1 func; mret (int_from_bytes bs (endianness self) true).
Definition get_u8 (self : Binary) (loc : Z) (func : PreprocessorFunc) :=
  bs ← get_bytes self loc 1 func; mret (int_from_bytes bs (endianness self) false).

(** ** src/format.py *)

(** [Optional[int | str]], the length of a nested block *)
Inductive LengthSpec :=
| LenNone
| LenInt (n : Z)
| LenName (var : string).

(** The classes of field descriptors, each with the attributes its
    constructor sets, in the order of the constructor's parameters.
    [ArrayField] has no attributes and inherits every method of [Field]. *)
Inductive Field :=
| UnknownField (length : Z) (start : option Z)
| IntFieldObj (bits : Z) (signed : bool) (name : option string)
              (start : option Z) (func : PreprocessorFunc)
| NestedBlockField (start : option Z) (length : LengthSpec)
                   (name : option string) (subfields : list Field)
                   (func : PreprocessorFunc)
| StructField (start : option Z) (length : option Z) (name : option string)
              (fields : list Field) (func : PreprocessorFunc)
| ArrayField.

(** [IntField.__init__]: a width other than 8, 16, 32 or 64 becomes 32. *)
Definition IntField (bits : Z) (signed : bool) (name : option string)
    (start : option Z) (func : PreprocessorFunc) : Field :=
  IntFieldObj (if existsb (Z.eqb bits) [8; 16; 32; 64] then bits else 32)
              signed name start func.

(** Python's [str] and [hex] on an integer *)
Definition str (n : Z) : string :=
  DecimalString.NilZero.string_of_int (Z.to_int n).

Definition hex (n : Z) : string :=
  (if n <? 0 then "-" else "") +:+ "0x" +:+
  HexadecimalString.NilZero.string_of_uint (N.to_hex_uint (Z.abs_N n)).

Definition get_type (self : Field) : string :=
  match self with
  | UnknownField _ _ => "unknown"
  | IntFieldObj bits signed _ _ _ => (if signed then "i" else "u") +:+ str bits
  | NestedBlockField _ _ _ _ _ => "nested"
  | StructField _ _ _ _ _ => "struct"
  | ArrayField => "None"
  end.

Definition get_start (self : Field) : option Z :=
  match self with
  | UnknownField _ start => start
  | IntFieldObj _ _ _ start _ => start
  | NestedBlockField start _ _ _ _ => start
  | StructField start _ _ _ _ => start
  | ArrayField => None
  end.

Definition get_preprocessor (self : Field) : PreprocessorFunc :=
  match self with
  | UnknownField _ _ => None
  | IntFieldObj _ _ _ _ func => func
  | NestedBlockField _ _ _ _ func => func
  | StructField _ _ _ _ func => func
  | ArrayField => None
  end.

Definition get_name (self : Field) : option string :=
  match self with
  | UnknownField _ _ => None
  | IntFieldObj _ _ name _ _ => name
  | NestedBlockField _ _ name _ _ => name
  | StructField _ _ name _ _ => name
  | ArrayField => None
  end.

Definition get_label (self : Field) (loc : Z) : string :=
  match get_name self with
  | Some name => name
  | None => "untitled_" +:+ get_type self +:+ "_field_" +:+ hex loc
  end.

(** ** src/field_data.py *)

(** [FieldData.val] is typed [Any]; the reader stores a decoded integer, the
    raw bytes of an unknown field, the list a nested read returns, or
    [None]. *)
Inductive FieldData :=
| mkFieldData (name : string) (type : string) (location : Z) (val : Value)
with Value :=
| VNone
| VInt (n : Z)
| VBytes (bs : bytes)
| VList (items : list FieldData).

Definition name (d : FieldData) : string :=
  match d with mkFieldData n _ _ _ => n end.
Definition type (d : FieldData) : string :=
  match d with mkFieldData _ t _ _ => t end.
Definition location (d : FieldData) : Z :=
  match d with mkFieldData _ _ l _ => l end.
Definition val (d : FieldData) : Value :=
  match d with mkFieldData _ _ _ v => v end.

(** [NestedBlockField.get_length]: a missing key is the [KeyError] of the
    dictionary lookup. *)
Definition get_length (length : LengthSpec) (read_vars : gmap string Value)
  : outcome Z :=
  match length with
  | LenName var =>
      match read_vars !! var with
      | None => Raise (KeyError var)
      | Some (VInt res) => Ok res
      | Some _ =>
          Raise (ValueError "The value of variable was not an int or did not exist")
      end
  | LenInt n => Ok n
  | LenNone =>
      Raise (ValueError "Size specification for a NestedBlockField must be an int or a string (name of variable)")
  end.

(** ** src/reader.py *)

Record ReaderOpts := mkReaderOpts { include_gaps : bool }.

(** The attributes of a [Reader] object.  [vars] is the only one the reader
    assigns to after construction. *)
Record Reader := mkReader {
  fields : list Field;
  opts : ReaderOpts;
  vars : gmap string Value;
  preprocess : PreprocessorFunc
}.

(** [Reader.__init__] *)
Definition Reader_init (fields : list Field) (options : ReaderOpts)
    (preprocess : PreprocessorFunc) : Reader :=
  mkReader fields options ∅ preprocess.

(** [self.vars[name] = val] *)
Definition set_var (self : Reader) (name : string) (val : Value) : Reader :=
  mkReader (fields self) (opts self) (<[name := val]> (vars self))
           (preprocess self).

(** [copy.deepcopy] of a list of descriptors: every descriptor and every
    list below it is rebuilt; functions are copied by reference. *)
Fixpoint deepcopy_field (f : Field) : Field :=
  match f with
  | UnknownField length start => UnknownField length start
  | IntFieldObj bits signed name start func =>
      IntFieldObj bits signed name start func
  | NestedBlockField start length name subfields func =>
      NestedBlockField start length name (map deepcopy_field subfields) func
  | StructField start length name fields func =>
      StructField start length name (map deepcopy_field fields) func
  | ArrayField => ArrayField
  end.

Definition deepcopy (l : list Field) : list Field := map deepcopy_field l.

Definition compose (block_preprocessor field_preprocessor : PreprocessorFunc)
  : PreprocessorFunc :=
  match block_preprocessor, field_preprocessor with
  | None, None => None
  | None, Some f => Some f
  | Some b, None => Some b
  | Some b, Some f => Some (fun bs => f (b bs))
  end.

Definition should_fill_blanks (self : Reader) : bool :=
  include_gaps (opts self).

(** [__get_next_field] pops from [queue] in place; the model returns the
    queue it leaves behind next to the result. *)
Definition get_next_field (self : Reader) (queue : list Field) (loc : Z)
    (binary_size : option Z) : outcome (option Field) * list Field :=
  if match binary_size with Some sz => loc >=? sz | None => false end
  then (Ok None, queue)
  else
    match queue with
    | [] =>
        match binary_size with
        | Some sz =>
            if should_fill_blanks self
            then (Ok (Some (UnknownField (sz - loc) (Some loc))), queue)
            else (Ok None, queue)
        | None => (Ok None, queue)
        end
    | first :: rest =>
        let next_starting_offset := get_start first in
        match next_starting_offset with
        | Some s =>
            if s >? loc then
              if should_fill_blanks self
              then (Ok (Some (UnknownField (s - loc) (Some loc))), queue)
              else (Ok (Some first), rest)
            else if s <=? loc then (Ok (Some first), rest)
            else (Raise AssertionError, queue)
        | None => (Ok (Some first), rest)
        end
    end.

Section Recursion.

(** [sub_reader.read_binary(bin_block)]: the read of a nested block, by a
    reader that is dropped afterwards.  *)
Variable read_sub : Reader -> Binary -> outcome Value.

(** The [match] of [__consume_field]: the value and the new location. *)
Definition decode_field (self : Reader) (field : Field) (binary : Binary)
    (start_byte : Z) (preprocessor : PreprocessorFunc) : outcome (Value * Z) :=
  let ty := get_type field in
  if String.eqb ty "unknown" then
    match field with
    | UnknownField length _ =>
        val ← get_bytes binary start_byte length preprocessor;
        mret (VBytes val, start_byte + Z.of_nat (List.length val))
    | _ => Raise AttributeError
    end
  else if String.eqb ty "u8" then
    val ← get_u8 binary start_byte preprocessor; mret (VInt val, start_byte + 1)
  else if String.eqb ty "i8" then
    val ← get_i8 binary start_byte preprocessor; mret (VInt val, start_byte + 1)
  else if String.eqb ty "u16" then
    val ← get_u16 binary start_byte preprocessor; mret (VInt val, start_byte + 2)
  else if String.eqb ty "i16" then
    val ← get_i16 binary start_byte preprocessor; mret (VInt val, start_byte + 2)
  else if String.eqb ty "u32" then
    val ← get_u32 binary start_byte preprocessor; mret (VInt val, start_byte + 4)
  else if String.eqb ty "i32" then
    val ← get_i32 binary start_byte preprocessor; mret (VInt val, start_byte + 4)
  else if String.eqb ty "u64" then
    val ← get_u64 binary start_byte preprocessor; mret (VInt val, start_byte + 8)
  else if String.eqb ty "i64" then
    val ← get_i64 binary start_byte preprocessor; mret (VInt val, start_byte + 8)
  else if String.eqb ty "nested" then
    match field with
    | NestedBlockField _ length _ subfields _ =>
        let sub_reader := Reader_init subfields (opts self) preprocessor in
        len ← get_length length (vars self);
        let bin_block := BinaryBlock binary start_byte len in
        val ← read_sub sub_reader bin_block;
        mret (val, start_byte)
    | _ => Raise AttributeError
    end
  else mret (VNone, start_byte).

Definition consume_field (self : Reader) (field : Field) (binary : Binary)
    (cur_loc : Z) : Reader * outcome (Z * FieldData) :=
  let start_override := get_start field in
  let start_byte := default cur_loc start_override in
  let preprocessor := compose (preprocess self) (get_preprocessor field) in
  match decode_field self field binary start_byte preprocessor with
  | Ok (val, new_loc) =>
      let self' :=
        match get_name field with
        | Some name => set_var self name val
        | None => self
        end in
      let res := mkFieldData (get_label field start_byte) (get_type field)
                             start_byte val in
      (self', Ok (new_loc, res))
  | Raise e => (self, Raise e)
  | OutOfFuel => (self, OutOfFuel)
  end.

(** The [while True] loop of [__consume_struct]; [fuel] bounds the number
    of iterations. *)
Fixpoint struct_loop (fuel : nat) (self : Reader) (length : option Z)
    (binary : Binary) (queued_fields : list Field) (cur_loc : Z)
    (completed_fields : list FieldData)
  : Reader * outcome (Z * list FieldData) :=
  match fuel with
  | O => (self, OutOfFuel)
  | S fuel' =>
      match get_next_field self queued_fields cur_loc length with
      | (Ok None, _) => (self, Ok (cur_loc, completed_fields))
      | (Ok (Some next_field), queued_fields') =>
          match consume_field self next_field binary cur_loc with
          | (self', Ok (new_loc, data)) =>
              struct_loop fuel' self' length binary queued_fields' new_loc
                          (completed_fields ++ [data])
          | (self', Raise e) => (self', Raise e)
          | (self', OutOfFuel) => (self', OutOfFuel)
          end
      | (Raise e, _) => (self, Raise e)
      | (OutOfFuel, _) => (self, OutOfFuel)
      end
  end.

Definition consume_struct (fuel : nat) (self : Reader) (fields : Field)
    (binary : Binary) (loc : Z) : Reader * outcome (Z * FieldData) :=
  match fields with
  | StructField _ length _ subfields _ =>
      let cur_loc := loc in
      let queued_fields := deepcopy subfields in
      match struct_loop fuel self length binary queued_fields cur_loc [] with
      | (self', Ok (cur_loc', completed_fields)) =>
          let res := mkFieldData (get_label fields loc) "struct" loc
                                 (VList completed_fields) in
          (self', Ok (cur_loc', res))
      | (self', Raise e) => (self', Raise e)
      | (self', OutOfFuel) => (self', OutOfFuel)
      end
  | _ => (self, Raise AttributeError)
  end.

End Recursion.

(** [read_binary]; [fuel] bounds the depth of nested reads and, at each
    depth, the iterations of the struct loop. *)
Fixpoint read_binary (fuel : nat) (self : Reader) (binary : Binary)
  : Reader * outcome Value :=
  match fuel with
  | O => (self, OutOfFuel)
  | S fuel' =>
      let cur_loc := 0 in
      let fields := deepcopy (fields self) in
      let struct := StructField (Some 0) (Some (get_size binary)) None fields None in
      match consume_struct (fun r b => snd (read_binary fuel' r b))
                           fuel self struct binary cur_loc with
      | (self', Ok (_, res)) => (self', Ok (val res))
      | (self', Raise e) => (self', Raise e)
      | (self', OutOfFuel) => (self', OutOfFuel)
      end
  end.

(** The private methods of a reader whose nested reads get [fuel]. *)
Definition Reader_consume_field (fuel : nat) :=
  consume_field (fun r b => snd (read_binary fuel r b)).
Definition Reader_consume_struct (fuel : nat) :=
  consume_struct (fun r b => snd (read_binary fuel r b)).

(** ** The selection policy in the words of the specification *)

(** An Unknown descriptor spanning [[from, to)]. *)
Definition Unknown_spanning (from to : Z) : Field :=
  UnknownField (to - from) (Some from).

(** What one step of the next-field selection policy of the specification
    hands out: the descriptor for this step, if any, and the descriptors
    left queued.  That consumption stops after the Unknown synthesized for
    an empty queue is a statement about the loop around the steps and is
    not part of this function. *)
Definition next_field_policy (fill_gaps : bool) (queue : list Field) (cur : Z)
    (limit : option Z) : option Field * list Field :=
  match limit with
  | Some l => if l <=? cur then (None, queue) else
      match queue with
      | [] => if fill_gaps then (Some (Unknown_spanning cur l), queue)
              else (None, queue)
      | d :: rest =>
          match get_start d with
          | Some s => if cur <? s
                      then if fill_gaps
                           then (Some (Unknown_spanning cur s), queue)
                           else (Some d, rest)
                      else (Some d, rest)
          | None => (Some d, rest)
          end
      end
  | None =>
      match queue with
      | [] => (None, queue)
      | d :: rest =>
          match get_start d with
          | Some s => if cur <? s
                      then if fill_gaps
                           then (Some (Unknown_spanning cur s), queue)
                           else (Some d, rest)
                      else (Some d, rest)
          | None => (Some d, rest)
          end
      end
  end.

(** ** Inputs used in the examples *)

Definition default_opts : ReaderOpts := mkReaderOpts false.
Definition gap_opts : ReaderOpts := mkReaderOpts true.

Definition ten_bytes : bytes :=
  [x00; x01; x02; x03; x04; x05; x06; x07; x08; x09].
Definition ten_byte_file : Binary := BinaryFile ten_bytes little.

(** A nested block of four bytes followed by a one-byte sibling. *)
Definition block_then_byte : list Field :=
  [NestedBlockField (Some 0) (LenInt 4) None [] None;
   IntField 8 false (Some "y") None None].

(** A struct descriptor in a field sequence. *)
Definition struct_in_sequence : list Field :=
  [StructField None None (Some "s")
     [IntField 8 false (Some "a") None None] None;
   IntField 8 false (Some "b") None None].

(** The file at the bottom of a stack of views, and the position in it
    that a read at [start] of [self] reaches. *)
Fixpoint root_contents (self : Binary) : bytes :=
  match self with
  | BinaryFile contents _ => contents
  | BinaryBlockObj underlying_bin _ _ _ => root_contents underlying_bin
  end.

Fixpoint root_offset (self : Binary) (start : Z) : Z :=
  match self with
  | BinaryFile _ _ => start
  | BinaryBlockObj underlying_bin offset _ _ =>
      root_offset underlying_bin (start + offset)
  end.

(** The bytes of the file that a read of [n] bytes at [start] finds. *)
Definition available (self : Binary) (start n : Z) : bytes :=
  take (Z.to_nat n) (drop (Z.to_nat (root_offset self start)) (root_contents self)).

Definition two_byte_file : Binary := BinaryFile [xaa; xbb] little.

(** A one-byte field at 5 followed by a one-byte field whose explicit start
    0 lies behind the cursor. *)
Definition byte_at_5 : Field := IntField 8 false None (Some 5) None.
Definition byte_at_0 : Field := IntField 8 false None (Some 0) None.
Definition backward_schema : list Field := [byte_at_5; byte_at_0].

Definition backward_reader : Reader :=
  Reader_init backward_schema default_opts None.


(** [self'] is [self] after some reads: the attributes the caller set are
    the same and no binding has been removed. *)
Definition extends (self self' : Reader) : Prop :=
  fields self' = fields self /\
  opts self' = opts self /\
  preprocess self' = preprocess self /\
  dom (vars self) ⊆ dom (vars self').

(** [read_binary] applied to each source of a list in turn, on the same
    reader. *)
Fixpoint read_all (fuel : nat) (self : Reader) (sources : list Binary) : Reader :=
  match sources with
  | [] => self
  | binary :: rest => read_all fuel (fst (read_binary fuel self binary)) rest
  end.

Definition byte_x_at_2 : list Field := [IntField 8 false (Some "x") (Some 2) None].

(** The scenario of the specification: two 32-bit fields and a nested
    block whose length is the second of them. *)
Definition length_prefixed_file : Binary :=
  BinaryFile [x01; x00; x00; x00; x05; x00; x00; x00; xaa; xbb; xcc; xdd; xee]
             little.
Definition length_prefixed_schema : list Field :=
  [IntField 32 false (Some "a") (Some 0) None;
   IntField 32 false (Some "len") (Some 4) None;
   NestedBlockField (Some 8) (LenName "len") None [UnknownField 5 None] None].
Definition length_prefixed_tree : Value :=
  VList [mkFieldData "a" "u32" 0 (VInt 1);
         mkFieldData "len" "u32" 4 (VInt 5);
         mkFieldData "untitled_nested_field_0x8" "nested" 8
           (VList [mkFieldData "untitled_unknown_field_0x0" "unknown" 0
                               (VBytes [xaa; xbb; xcc; xdd; xee])])].

(** A block that binds [n] among its children, and a sibling block whose
    length refers to [n]. *)
Definition inner_named_block : Field :=
  NestedBlockField (Some 0) (LenInt 1) (Some "blk")
                   [IntField 8 false (Some "n") None None] None.
Definition block_by_inner_name : Field :=
  NestedBlockField (Some 1) (LenName "n") None [] None.
Definition sibling_scope_reader : Reader :=
  Reader_init [inner_named_block; block_by_inner_name] default_opts None.

(** Two siblings with the same name. *)
Definition byte_named_n : Field := IntField 8 false (Some "n") None None.

(** [reader.fields = fields]: the caller assigns a new descriptor list to
    the reader between two reads. *)
Definition set_fields (self : Reader) (fields : list Field) : Reader :=
  mkReader fields (opts self) (vars self) (preprocess self).

(** A block whose length is the name [x], with nothing before it. *)
Definition block_by_x : list Field :=
  [NestedBlockField None (LenName "x") None [] None].

(** ** More of src/binary.py *)

Definition STR_BUF_LEN : Z := 1024.

(** [buf.find(b)]: the index of the first occurrence, if any;
    [b in buf] holds exactly when there is one. *)
Fixpoint bytes_find (x : byte) (buf : bytes) : option nat :=
  match buf with
  | [] => None
  | b :: rest => if Byte.eqb b x then Some O else S <$> bytes_find x rest
  end.

(** The [while True] loop of [get_cstring]; [fuel] bounds the number of
    chunks read. *)
Fixpoint cstring_loop (fuel : nat) (self : Binary) (func : PreprocessorFunc)
    (buf : bytes) (cur_loc : Z) : outcome bytes :=
  match fuel with
  | O => OutOfFuel
  | S fuel' =>
      chunk ← get_bytes self cur_loc STR_BUF_LEN func;
      let buf := (buf ++ chunk)%list in
      match bytes_find x00 buf with
      | Some end_idx => mret (take end_idx buf)
      | None =>
          if Z.of_nat (List.length chunk) <? STR_BUF_LEN then mret buf
          else cstring_loop fuel' self func buf
                            (cur_loc + Z.of_nat (List.length chunk))
      end
  end.

Definition get_cstring (fuel : nat) (self : Binary) (loc : Z)
    (func : PreprocessorFunc) : outcome bytes :=
  cstring_loop fuel self func [] loc.

(** The bytes of [bs] before its first zero byte, all of [bs] if it has
    none. *)
Definition until_zero (bs : bytes) : bytes :=
  match bytes_find x00 bs with
  | Some i => take i bs
  | None => bs
  end.

(** The eight fixed-width decoders with their width in bytes and their
    signedness. *)
Definition decoders
  : list ((Binary -> Z -> PreprocessorFunc -> outcome Z) * Z * bool) :=
  [(get_u8, 1, false); (get_i8, 1, true);
   (get_u16, 2, false); (get_i16, 2, true);
   (get_u32, 4, false); (get_i32, 4, true);
   (get_u64, 8, false); (get_i64, 8, true)].

(** A file seen through a stack of views, innermost view first, each built
    by the constructor of [BinaryBlock]. *)
Fixpoint views (file : Binary) (windows : list (Z * Z)) : Binary :=
  match windows with
  | [] => file
  | (offset, length) :: rest => BinaryBlock (views file rest) offset length
  end.

Definition hello_file : Binary :=
  BinaryFile [x68; x69; x00; x21] little.

(** ** Measures of a schema *)

(** The names the descriptors of a list carry themselves (not those of
    their children). *)
Definition field_names (fs : list Field) : gset string :=
  list_to_set (omap get_name fs).

(** Fuel that suffices to read a schema without gap-filling: one more than
    the longer of the list and what the children of any nested block in it
    need. *)
Fixpoint field_fuel (f : Field) : nat :=
  match f with
  | NestedBlockField _ _ _ subfields _ =>
      S (Nat.max (List.length subfields)
                 (foldr Nat.max O (map field_fuel subfields)))
  | _ => O
  end.

Definition fuel_needed (fs : list Field) : nat :=
  S (Nat.max (List.length fs) (foldr Nat.max O (map field_fuel fs))).

Definition xor_73 : bytes -> bytes :=
  map (fun b => default x00 (Byte.of_N (N.lxor (Byte.to_N b) 115))).

(** The name a descriptor looks up to resolve its length, the name it
    binds, and the same for a list of descriptors. *)
Definition length_name (f : Field) : option string :=
  match f with
  | NestedBlockField _ (LenName x) _ _ _ => Some x
  | _ => None
  end.

Definition name_set (f : Field) : gset string :=
  match get_name f with
  | Some n => {[n]}
  | None => ∅
  end.

Definition length_names (fs : list Field) : gset string :=
  list_to_set (omap length_name fs).

(** [x] is covered in [queue] after the names [bound]: every descriptor of
    [queue] that looks [x] up comes after [x] is bound, by [bound] or by a
    descriptor before it in [queue]. *)
Fixpoint covered_in (bound : gset string) (queue : list Field) (x : string)
  : Prop :=
  match queue with
  | [] => True
  | f :: rest =>
      (length_name f = Some x -> x ∈ bound) /\
      covered_in (bound ∪ name_set f) rest x
  end.

(** Two sources for one reader. *)
Definition three_byte_file : Binary := BinaryFile [x07; x08; x09] big.

Definition is_nested (f : Field) : bool :=
  match f with
  | NestedBlockField _ _ _ _ _ => true
  | _ => false
  end.

(** At cursor [loc] the next step of the loop is not a gap before the head
    of the queue nor the gap after the last descriptor. *)
Definition settled (self : Reader) (queue : list Field) (loc size : Z) : Prop :=
  size <= loc \/ include_gaps (opts self) = false \/
  exists f rest, queue = f :: rest /\
                 (get_start f = None \/ exists s, get_start f = Some s /\ s <= loc).

(** A named block followed by a block whose length names the first. *)
Definition block_named_a : Field :=
  NestedBlockField (Some 0) (LenInt 1) (Some "a") [] None.
Definition block_by_a : Field :=
  NestedBlockField (Some 1) (LenName "a") None [] None.

(** A ten-byte source that is a window of declared length 10 at offset 5
    of the ten-byte file: five bytes lie behind it. *)
Definition ten_byte_view : Binary := BinaryBlock ten_byte_file 5 10.

(** ** The list objects a reader shares with its caller *)

(** [Reader.__init__] stores the caller's list itself, [copy.deepcopy]
    makes a new list, and [queue.pop(0)] changes a list in place.  The
    definitions of this module follow the reader through a store of list
    objects, so that which list a [pop] reaches is visible.  A descriptor
    is never assigned to after its construction, so a descriptor, with the
    lists below it, stays a value; the list objects are the ones a reader
    is constructed with, copies and pops from. *)
Module Shared.

Abbreviation Store := (gmap positive (list Field)).

(** A new list object holding [l]. *)
Definition new_list (σ : Store) (l : list Field) : positive * Store :=
  let a := fresh (dom σ) in (a, <[a := l]> σ).

(** [copy.deepcopy(a)] for the list object [a]: a new list object whose
    elements are copies. *)
Definition deepcopy (σ : Store) (a : positive) : positive * Store :=
  new_list σ (deepcopy (σ !!! a)).

(** A [Reader] object: [fields] refers to the list the caller passed. *)
Record Reader := mkReader {
  fields : positive;
  opts : ReaderOpts;
  vars : gmap string Value;
  preprocess : PreprocessorFunc
}.

Definition Reader_init (fields : positive) (options : ReaderOpts)
    (preprocess : PreprocessorFunc) : Reader :=
  mkReader fields options ∅ preprocess.

Definition set_var (self : Reader) (name : string) (val : Value) : Reader :=
  mkReader (fields self) (opts self) (<[name := val]> (vars self))
           (preprocess self).

Definition should_fill_blanks (self : Reader) : bool :=
  include_gaps (opts self).

(** [__get_next_field]: [queue.pop(0)] replaces the content of the list
    object [queue] by its tail. *)
Definition get_next_field (σ : Store) (self : Reader) (queue : positive)
    (loc : Z) (binary_size : option Z) : Store * outcome (option Field) :=
  if match binary_size with Some sz => loc >=? sz | None => false end
  then (σ, Ok None)
  else
    match σ !!! queue with
    | [] =>
        match binary_size with
        | Some sz =>
            if should_fill_blanks self
            then (σ, Ok (Some (UnknownField (sz - loc) (Some loc))))
            else (σ, Ok None)
        | None => (σ, Ok None)
        end
    | first :: rest =>
        let next_starting_offset := get_start first in
        match next_starting_offset with
        | Some s =>
            if s >? loc then
              if should_fill_blanks self
              then (σ, Ok (Some (UnknownField (s - loc) (Some loc))))
              else (<[queue := rest]> σ, Ok (Some first))
            else if s <=? loc then (<[queue := rest]> σ, Ok (Some first))
            else (σ, Raise AssertionError)
        | None => (<[queue := rest]> σ, Ok (Some first))
        end
    end.

(** The [StructField] object that [read_binary] builds: its attribute
    [fields] refers to a list object. *)
Record StructFieldRef := mkStructFieldRef {
  struct_start : option Z;
  struct_length : option Z;
  struct_name : option string;
  struct_fields : positive
}.

Definition struct_label (s : StructFieldRef) (loc : Z) : string :=
  get_label (StructField (struct_start s) (struct_length s) (struct_name s)
                         [] None) loc.

Section Recursion.

(** [sub_reader.read_binary(bin_block)] *)
Variable read_sub : Store -> Reader -> Binary -> Store * outcome Value.

(** The [match] of [__consume_field].  The list [_field.subfields] of a
    nested descriptor becomes a list object where the sub-reader is
    constructed with it. *)
Definition decode_field (σ : Store) (self : Reader) (field : Field)
    (binary : Binary) (start_byte : Z) (preprocessor : PreprocessorFunc)
  : Store * outcome (Value * Z) :=
  let ty := get_type field in
  if String.eqb ty "unknown" then
    match field with
    | UnknownField length _ =>
        (σ, val ← get_bytes binary start_byte length preprocessor;
            mret (VBytes val, start_byte + Z.of_nat (List.length val)))
    | _ => (σ, Raise AttributeError)
    end
  else if String.eqb ty "u8" then
    (σ, val ← get_u8 binary start_byte preprocessor; mret (VInt val, start_byte + 1))
  else if String.eqb ty "i8" then
    (σ, val ← get_i8 binary start_byte preprocessor; mret (VInt val, start_byte + 1))
  else if String.eqb ty "u16" then
    (σ, val ← get_u16 binary start_byte preprocessor; mret (VInt val, start_byte + 2))
  else if String.eqb ty "i16" then
    (σ, val ← get_i16 binary start_byte preprocessor; mret (VInt val, start_byte + 2))
  else if String.eqb ty "u32" then
    (σ, val ← get_u32 binary start_byte preprocessor; mret (VInt val, start_byte + 4))
  else if String.eqb ty "i32" then
    (σ, val ← get_i32 binary start_byte preprocessor; mret (VInt val, start_byte + 4))
  else if String.eqb ty "u64" then
    (σ, val ← get_u64 binary start_byte preprocessor; mret (VInt val, start_byte + 8))
  else if String.eqb ty "i64" then
    (σ, val ← get_i64 binary start_byte preprocessor; mret (VInt val, start_byte + 8))
  else if String.eqb ty "nested" then
    match field with
    | NestedBlockField _ length _ subfields _ =>
        let '(subfields_ref, σ1) := new_list σ subfields in
        let sub_reader := Reader_init subfields_ref (opts self) preprocessor in
        match get_length length (vars self) with
        | Ok len =>
            let bin_block := BinaryBlock binary start_byte len in
            match read_sub σ1 sub_reader bin_block with
            | (σ2, Ok val) => (σ2, Ok (val, start_byte))
            | (σ2, Raise e) => (σ2, Raise e)
            | (σ2, OutOfFuel) => (σ2, OutOfFuel)
            end
        | Raise e => (σ1, Raise e)
        | OutOfFuel => (σ1, OutOfFuel)
        end
    | _ => (σ, Raise AttributeError)
    end
  else (σ, Ok (VNone, start_byte)).

Definition consume_field (σ : Store) (self : Reader) (field : Field)
    (binary : Binary) (cur_loc : Z)
  : Store * Reader * outcome (Z * FieldData) :=
  let start_override := get_start field in
  let start_byte := default cur_loc start_override in
  let preprocessor := compose (preprocess self) (get_preprocessor field) in
  match decode_field σ self field binary start_byte preprocessor with
  | (σ', Ok (val, new_loc)) =>
      let self' :=
        match get_name field with
        | Some name => set_var self name val
        | None => self
        end in
      let res := mkFieldData (get_label field start_byte) (get_type field)
                             start_byte val in
      (σ', self', Ok (new_loc, res))
  | (σ', Raise e) => (σ', self, Raise e)
  | (σ', OutOfFuel) => (σ', self, OutOfFuel)
  end.

(** The [while True] loop of [__consume_struct] over the list object
    [queued_fields]. *)
Fixpoint struct_loop (fuel : nat) (σ : Store) (self : Reader)
    (length : option Z) (binary : Binary) (queued_fields : positive)
    (cur_loc : Z) (completed_fields : list FieldData)
  : Store * Reader * outcome (Z * list FieldData) :=
  match fuel with
  | O => (σ, self, OutOfFuel)
  | S fuel' =>
      match get_next_field σ self queued_fields cur_loc length with
      | (σ1, Ok None) => (σ1, self, Ok (cur_loc, completed_fields))
      | (σ1, Ok (Some next_field)) =>
          match consume_field σ1 self next_field binary cur_loc with
          | (σ2, self', Ok (new_loc, data)) =>
              struct_loop fuel' σ2 self' length binary queued_fields new_loc
                          (completed_fields ++ [data])
          | (σ2, self', Raise e) => (σ2, self', Raise e)
          | (σ2, self', OutOfFuel) => (σ2, self', OutOfFuel)
          end
      | (σ1, Raise e) => (σ1, self, Raise e)
      | (σ1, OutOfFuel) => (σ1, self, OutOfFuel)
      end
  end.

Definition consume_struct (fuel : nat) (σ : Store) (self : Reader)
    (fields : StructFieldRef) (binary : Binary) (loc : Z)
  : Store * Reader * outcome (Z * FieldData) :=
  let cur_loc := loc in
  let '(queued_fields, σ1) := deepcopy σ (struct_fields fields) in
  match struct_loop fuel σ1 self (struct_length fields) binary queued_fields
                    cur_loc [] with
  | (σ2, self', Ok (cur_loc', completed_fields)) =>
      let res := mkFieldData (struct_label fields loc) "struct" loc
                             (VList completed_fields) in
      (σ2, self', Ok (cur_loc', res))
  | (σ2, self', Raise e) => (σ2, self', Raise e)
  | (σ2, self', OutOfFuel) => (σ2, self', OutOfFuel)
  end.

End Recursion.

Fixpoint read_binary (fuel : nat) (σ : Store) (self : Reader) (binary : Binary)
  : Store * Reader * outcome Value :=
  match fuel with
  | O => (σ, self, OutOfFuel)
  | S fuel' =>
      let cur_loc := 0 in
      let '(fields, σ1) := deepcopy σ (fields self) in
      let struct :=
        mkStructFieldRef (Some 0) (Some (get_size binary)) None fields in
      match consume_struct
              (fun σ r b => let '(σ', _, o) := read_binary fuel' σ r b in (σ', o))
              fuel σ1 self struct binary cur_loc with
      | (σ2, self', Ok (_, res)) => (σ2, self', Ok (val res))
      | (σ2, self', Raise e) => (σ2, self', Raise e)
      | (σ2, self', OutOfFuel) => (σ2, self', OutOfFuel)
      end
  end.

(** [read_binary] applied to each source of a list in turn, on the same
    reader. *)
Fixpoint read_all (fuel : nat) (σ : Store) (self : Reader)
    (sources : list Binary) : Store * Reader :=
  match sources with
  | [] => (σ, self)
  | binary :: rest =>
      let '(σ1, self1, _) := read_binary fuel σ self binary in
      read_all fuel σ1 self1 rest
  end.

End Shared.

(** The reader of the value model that a [Shared.Reader] stands for when
    its list object holds [fs]. *)
Definition reader_of (fs : list Field) (self : Shared.Reader) : Reader :=
  mkReader fs (Shared.opts self) (Shared.vars self) (Shared.preprocess self).

(** * Properties *)

(** Evaluate the comparisons of type tags in the goal. *)
Ltac eval_dispatch :=
  repeat match goal with
         | |- context [String.eqb ?a ?b] =>
             let r := eval vm_compute in (String.eqb a b) in
             change (String.eqb a b) with r
         end;
  cbv iota.

(** ** Helper lemmas *)

Lemma deepcopy_field_id (f : Field) : deepcopy_field f = f.
Proof.
  revert f. fix IH 1. intros [l s|b sg n s fn|s l n subs fn|s l n fs fn|];
    simpl; try reflexivity.
  - f_equal. induction subs as [|x xs IHxs]; simpl; [reflexivity|].
    rewrite IH, IHxs. reflexivity.
  - f_equal. induction fs as [|x xs IHxs]; simpl; [reflexivity|].
    rewrite IH, IHxs. reflexivity.
Qed.

Lemma deepcopy_id (l : list Field) : deepcopy l = l.
Proof.
  unfold deepcopy. induction l as [|x xs IH]; simpl; [reflexivity|].
  rewrite deepcopy_field_id, IH. reflexivity.
Qed.

(** The trailing [assert False] of [__get_next_field] is never reached. *)
Lemma get_next_field_policy (self : Reader) (queue : list Field) (loc : Z)
    (binary_size : option Z) :
  get_next_field self queue loc binary_size =
  (Ok (fst (next_field_policy (should_fill_blanks self) queue loc binary_size)),
   snd (next_field_policy (should_fill_blanks self) queue loc binary_size)).
Proof.
  unfold get_next_field, next_field_policy, Unknown_spanning.
  destruct binary_size as [sz|].
  - destruct (Z.geb_spec loc sz), (Z.leb_spec sz loc); try lia; [reflexivity|].
    destruct queue as [|d rest].
    + destruct (should_fill_blanks self); reflexivity.
    + destruct (get_start d) as [s|]; [|reflexivity].
      destruct (Z.gtb_spec s loc), (Z.ltb_spec loc s), (Z.leb_spec s loc);
        try lia; destruct (should_fill_blanks self); reflexivity.
  - destruct queue as [|d rest]; [reflexivity|].
    destruct (get_start d) as [s|]; [|reflexivity].
    destruct (Z.gtb_spec s loc), (Z.ltb_spec loc s), (Z.leb_spec s loc);
      try lia; destruct (should_fill_blanks self); reflexivity.
Qed.

(** A view forwards a read to the source below it, shifted by its offset. *)
Lemma BinaryBlock_get_bytes (underlying : Binary) (offset length start n : Z)
    (func : PreprocessorFunc) :
  get_bytes (BinaryBlock underlying offset length) start n func =
  get_bytes underlying (start + offset) n func.
Proof. reflexivity. Qed.

(** ** C1: the cursor after a nested block *)

(** C1 (the code departs from it). Resolving a nested block returns the
    block's start as the new cursor, not start + length: the [nested] case
    of [__consume_field] never assigns [new_loc].  With a four-byte block at
    0 followed by a one-byte field [y], [y] is read at offset 0. *)
Theorem C1_nested_cursor_not_advanced :
  (forall fuel self start length name subfields func binary cur,
      match snd (Reader_consume_field fuel self
                   (NestedBlockField start length name subfields func)
                   binary cur) with
      | Ok (new_loc, _) => new_loc = default cur start
      | _ => True
      end)
  /\
  snd (read_binary 5 (Reader_init block_then_byte default_opts None)
                   ten_byte_file) =
  Ok (VList [mkFieldData "untitled_nested_field_0x0" "nested" 0 (VList []);
             mkFieldData "y" "u8" 0 (VInt 0)]).
Proof.
  split.
  - intros. unfold Reader_consume_field, consume_field, decode_field.
    cbn [get_type String.eqb Ascii.eqb Bool.eqb get_start].
    destruct (get_length length (vars self)) as [len| |]; cbn; try exact I.
    destruct (snd (read_binary fuel _ _)); cbn; try exact I. reflexivity.
  - reflexivity.
Qed.

(** ** C2: reads through a view *)

(** C2 (the code departs from it). [BinaryBlock.get_bytes] forwards the
    read to the underlying source and never consults the view's own length:
    a view of length 3 at offset 2 of a ten-byte file answers a read of 5
    bytes at 0 with the 5 bytes at 2..6 of the file. *)
Theorem C2_view_read_escapes_length :
  (forall underlying offset length start n func,
      get_bytes (BinaryBlock underlying offset length) start n func =
      get_bytes underlying (start + offset) n func)
  /\
  get_size (BinaryBlock ten_byte_file 2 3) = 3
  /\
  get_bytes (BinaryBlock ten_byte_file 2 3) 0 5 None =
  Ok [x02; x03; x04; x05; x06].
Proof. repeat split. Qed.

(** ** C4: a struct descriptor in a field sequence *)

(** C4 (the code departs from it). [__consume_field] has no case for the
    type ["struct"]: a struct descriptor falls to the default case, its
    children are not read, its value is [None] and the cursor stays at its
    start.  [__consume_struct] is reached only from [read_binary]. *)
Theorem C4_struct_descriptor_not_consumed :
  (forall fuel self start length name fields func binary cur,
      snd (Reader_consume_field fuel self
             (StructField start length name fields func) binary cur) =
      Ok (default cur start,
          mkFieldData (get_label (StructField start length name fields func)
                                 (default cur start))
                      "struct" (default cur start) VNone))
  /\
  snd (read_binary 5 (Reader_init struct_in_sequence default_opts None)
                   ten_byte_file) =
  Ok (VList [mkFieldData "s" "struct" 0 VNone;
             mkFieldData "b" "u8" 0 (VInt 0)]).
Proof. split; reflexivity. Qed.

(** ** Reads and decoding *)

Lemma get_bytes_available (self : Binary) (start n : Z) (func : PreprocessorFunc) :
  0 <= root_offset self start -> 0 <= n ->
  get_bytes self start n func = Ok (apply_func func (available self start n)).
Proof.
  unfold available. revert start.
  induction self as [contents e|u IH o e l]; intros start Hs Hn; simpl in *.
  - unfold file_seek, file_read.
    destruct (Z.ltb_spec start 0); [lia|]. cbn.
    destruct (Z.ltb_spec n (-1)); [lia|].
    destruct (Z.eqb_spec n (-1)); [lia|]. reflexivity.
  - apply IH; assumption.
Qed.

(** The case of [__consume_field] an integer descriptor of a supported
    width reaches: a read of [bits / 8] bytes, decoded in the byte order of
    the source. *)
Lemma decode_int_field read_sub (self : Reader) (bits : Z) (signed : bool)
    (name : option string) (start : option Z) (func : PreprocessorFunc)
    (binary : Binary) (start_byte : Z) (preprocessor : PreprocessorFunc) :
  bits ∈ [8; 16; 32; 64] ->
  decode_field read_sub self (IntField bits signed name start func) binary
               start_byte preprocessor =
  (bs ← get_bytes binary start_byte (bits / 8) preprocessor;
   mret (VInt (int_from_bytes bs (endianness binary) signed),
         start_byte + bits / 8)).
Proof.
  intros Hb. repeat (apply elem_of_cons in Hb as [->|Hb]);
    [| | | |by apply elem_of_nil in Hb]; destruct signed;
    unfold decode_field; cbn [IntField existsb Z.eqb Pos.eqb orb get_type];
    eval_dispatch;
    unfold get_u8, get_i8, get_u16, get_i16, get_u32, get_i32, get_u64, get_i64;
    destruct (get_bytes _ _ _ _); reflexivity.
Qed.

(** Whatever the descriptor, the new location is never before the
    descriptor's effective start. *)
Lemma decode_field_forward read_sub (self : Reader) (field : Field)
    (binary : Binary) (start_byte : Z) (preprocessor : PreprocessorFunc)
    (val : Value) (new_loc : Z) :
  decode_field read_sub self field binary start_byte preprocessor =
    Ok (val, new_loc) ->
  start_byte <= new_loc.
Proof.
  unfold decode_field, get_u8, get_i8, get_u16, get_i16, get_u32, get_i32,
    get_u64, get_i64.
  repeat (destruct (String.eqb _ _));
    try (destruct field; try discriminate);
    try (destruct (get_length _ _); cbn; try discriminate;
         destruct (read_sub _ _); cbn; try discriminate);
    try (destruct (get_bytes _ _ _ _); cbn; try discriminate);
    cbn; intros [= <- <-]; lia.
Qed.

Lemma available_length (self : Binary) (start n : Z) :
  0 <= root_offset self start -> 0 <= n ->
  Z.of_nat (List.length (available self start n)) =
  Z.min n (Z.max 0 (Z.of_nat (List.length (root_contents self))
                    - root_offset self start)).
Proof.
  intros Hs Hn. unfold available.
  rewrite length_take, length_drop. lia.
Qed.

(** ** C3: integer fields at the end of the source *)




(** ** C5: the direction of the cursor *)

(** C5 (counterexample). With a one-byte field at 5 followed by a one-byte
    field whose explicit start is 0, the policy hands out the second field
    at cursor 6 and resolving it leaves the cursor at 1. *)
Lemma C5_cursor_moves_backward :
  get_next_field backward_reader backward_schema 0 (Some 10) =
    (Ok (Some byte_at_5), [byte_at_0]) /\
  snd (Reader_consume_field 0 backward_reader byte_at_5 ten_byte_file 0) =
    Ok (6, mkFieldData "untitled_u8_field_0x5" "u8" 5 (VInt 5)) /\
  get_next_field backward_reader [byte_at_0] 6 (Some 10) =
    (Ok (Some byte_at_0), []) /\
  snd (Reader_consume_field 0 backward_reader byte_at_0 ten_byte_file 6) =
    Ok (1, mkFieldData "untitled_u8_field_0x0" "u8" 0 (VInt 0)) /\
  1 < 6.
Proof. repeat split. Qed.

(** C5 (amended). Every descriptor, wherever its explicit start lies, is
    resolved at its effective start (its explicit start when it has one,
    the cursor otherwise): its result node is located there and the cursor
    it leaves is never before it.  Hence the cursor does not move backward
    when the descriptor has no explicit start or an explicit start at or
    after the cursor; a descriptor whose explicit start [s] lies behind the
    cursor is resolved at [s] and leaves the cursor at or after [s], which
    may be before the cursor it was resolved from. *)
Theorem C5_cursor_forward_from_effective_start
    (fuel : nat) (self self' : Reader) (field : Field) (binary : Binary)
    (cur new_loc : Z) (data : FieldData) :
  Reader_consume_field fuel self field binary cur = (self', Ok (new_loc, data)) ->
  location data = default cur (get_start field) /\
  default cur (get_start field) <= new_loc /\
  match get_start field with
  | None => cur <= new_loc
  | Some s => location data = s /\ s <= new_loc /\ (cur <= s -> cur <= new_loc)
  end.
Proof.
  unfold Reader_consume_field, consume_field. intros Hc.
  destruct (decode_field _ _ _ _ _ _) as [[v l]| |] eqn:Hd; try discriminate.
  injection Hc as _ <- <-.
  apply decode_field_forward in Hd.
  split; [reflexivity|]. split; [exact Hd|].
  destruct (get_start field) as [s|]; simpl in *; [|exact Hd].
  split; [reflexivity|]. split; [exact Hd|lia].
Qed.

(** The one-byte field whose explicit start 0 lies behind the cursor 6. *)
Lemma C5_cursor_forward_from_effective_start_witness :
  location (mkFieldData "untitled_u8_field_0x0" "u8" 0 (VInt 0))
    = default 6 (get_start byte_at_0) /\
  default 6 (get_start byte_at_0) <= 1 /\
  match get_start byte_at_0 with
  | None => 6 <= 1
  | Some s =>
      location (mkFieldData "untitled_u8_field_0x0" "u8" 0 (VInt 0)) = s /\
      s <= 1 /\ (6 <= s -> 6 <= 1)
  end.
Proof.
  apply (C5_cursor_forward_from_effective_start
           0 backward_reader backward_reader byte_at_0 ten_byte_file 6 1
           (mkFieldData "untitled_u8_field_0x0" "u8" 0 (VInt 0))).
  reflexivity.
Defined.

(** ** What a read leaves in the reader *)

Lemma extends_refl (self : Reader) : extends self self.
Proof. unfold extends. split_and!; done. Qed.

Lemma extends_trans (r1 r2 r3 : Reader) :
  extends r1 r2 -> extends r2 r3 -> extends r1 r3.
Proof.
  intros (Hf1 & Ho1 & Hp1 & Hd1) (Hf2 & Ho2 & Hp2 & Hd2).
  unfold extends. split_and!; try congruence. set_solver.
Qed.

Lemma set_var_extends (self : Reader) (name : string) (val : Value) :
  extends self (set_var self name val).
Proof.
  unfold extends. split_and!; try done. simpl. rewrite dom_insert_L. set_solver.
Qed.

Section Frame.

Variable read_sub : Reader -> Binary -> outcome Value.

Lemma consume_field_extends (self self' : Reader) (field : Field)
    (binary : Binary) (cur_loc : Z) (o : outcome (Z * FieldData)) :
  consume_field read_sub self field binary cur_loc = (self', o) ->
  extends self self'.
Proof.
  unfold consume_field.
  destruct (decode_field _ _ _ _ _ _) as [[v l]| |]; intros [= <- <-];
    try apply extends_refl.
  destruct (get_name field); [apply set_var_extends|apply extends_refl].
Qed.

Lemma struct_loop_extends (fuel : nat) (self self' : Reader)
    (length : option Z) (binary : Binary) (queue : list Field) (cur_loc : Z)
    (completed : list FieldData) (o : outcome (Z * list FieldData)) :
  struct_loop read_sub fuel self length binary queue cur_loc completed
    = (self', o) ->
  extends self self'.
Proof.
  revert self queue cur_loc completed.
  induction fuel as [|fuel IH]; intros self queue cur_loc completed; simpl.
  - intros [= <- <-]. apply extends_refl.
  - rewrite get_next_field_policy.
    destruct (fst (next_field_policy _ _ _ _)) as [f|].
    + destruct (consume_field read_sub self f binary cur_loc)
        as [self1 [[l d]| |]] eqn:Hc;
        apply consume_field_extends in Hc.
      * intros Hl. apply IH in Hl. eapply extends_trans; eassumption.
      * intros [= <- <-]. assumption.
      * intros [= <- <-]. assumption.
    + intros [= <- <-]. apply extends_refl.
Qed.

Lemma consume_struct_extends (fuel : nat) (self self' : Reader)
    (fields : Field) (binary : Binary) (loc : Z)
    (o : outcome (Z * FieldData)) :
  consume_struct read_sub fuel self fields binary loc = (self', o) ->
  extends self self'.
Proof.
  unfold consume_struct. destruct fields; try (intros [= <- <-]; apply extends_refl).
  destruct (struct_loop _ _ _ _ _ _ _ _) as [self1 [[l c]| |]] eqn:Hl;
    apply struct_loop_extends in Hl; intros [= <- <-]; assumption.
Qed.

End Frame.

Lemma read_binary_S (fuel : nat) (self : Reader) (binary : Binary) :
  read_binary (S fuel) self binary =
  match Reader_consume_struct fuel (S fuel) self
          (StructField (Some 0) (Some (get_size binary)) None
                       (deepcopy (fields self)) None)
          binary 0 with
  | (self', Ok (_, res)) => (self', Ok (val res))
  | (self', Raise e) => (self', Raise e)
  | (self', OutOfFuel) => (self', OutOfFuel)
  end.
Proof. reflexivity. Qed.

Lemma read_binary_extends (fuel : nat) (self : Reader) (binary : Binary) :
  extends self (fst (read_binary fuel self binary)).
Proof.
  destruct fuel as [|fuel]; [apply extends_refl|].
  rewrite read_binary_S.
  destruct (Reader_consume_struct _ _ _ _ _ _) as [self1 [[l d]| |]] eqn:Hc;
    unfold Reader_consume_struct in Hc;
    apply consume_struct_extends in Hc; assumption.
Qed.

Lemma read_all_extends (fuel : nat) (sources : list Binary) (self : Reader) :
  extends self (read_all fuel self sources).
Proof.
  revert self. induction sources as [|b rest IH]; intros self; simpl.
  - apply extends_refl.
  - eapply extends_trans; [apply read_binary_extends|apply IH].
Qed.

(** ** C6: what a read shares with the next read *)

(** C6 (counterexample). After a read that resolved a descriptor named
    [x], the reader's scope still binds [x]: a second read on the same
    reader does not start from an empty scope.  A block whose length names
    [x], read next by that reader, resolves against the binding of the
    first read; read by a new reader it fails. *)
Lemma C6_scope_survives_a_read :
  vars (Reader_init byte_x_at_2 default_opts None) = ∅ /\
  vars (fst (read_binary 5 (Reader_init byte_x_at_2 default_opts None)
                         ten_byte_file)) !! "x" = Some (VInt 2) /\
  snd (read_binary 5
         (set_fields
            (fst (read_binary 5 (Reader_init byte_x_at_2 default_opts None)
                              ten_byte_file))
            block_by_x)
         ten_byte_file) =
  Ok (VList [mkFieldData "untitled_nested_field_0x0" "nested" 0 (VList [])]) /\
  snd (read_binary 5 (Reader_init block_by_x default_opts None) ten_byte_file) =
  Raise (KeyError "x").
Proof. repeat split. Qed.

(** *** The caller's list and the lists a read pops from *)

Lemma new_list_spec (σ : Shared.Store) (l : list Field) :
  σ !! fst (Shared.new_list σ l) = None /\
  snd (Shared.new_list σ l) !! fst (Shared.new_list σ l) = Some l /\
  σ ⊆ snd (Shared.new_list σ l).
Proof.
  unfold Shared.new_list; simpl.
  assert (Hf : σ !! fresh (dom σ) = None)
    by (apply not_elem_of_dom, is_fresh).
  split_and!; [exact Hf|apply lookup_insert_eq|apply insert_subseteq, Hf].
Qed.

Lemma shared_deepcopy_spec (σ : Shared.Store) (a : positive) (l : list Field) :
  σ !! a = Some l ->
  σ !! fst (Shared.deepcopy σ a) = None /\
  snd (Shared.deepcopy σ a) !! fst (Shared.deepcopy σ a) = Some l /\
  σ ⊆ snd (Shared.deepcopy σ a).
Proof.
  intros Ha. unfold Shared.deepcopy.
  rewrite (lookup_total_correct _ _ _ Ha), deepcopy_id.
  apply new_list_spec.
Qed.

(** A step of the selection on the list object [queue] is the step of the
    value model on the list it holds; the list left behind is written back
    to [queue] and no other list object is touched. *)
Lemma shared_get_next_field (σ : Shared.Store) (self : Shared.Reader)
    (fs queue : list Field) (q : positive) (loc : Z) (binary_size : option Z) :
  σ !! q = Some queue ->
  Shared.get_next_field σ self q loc binary_size =
  (<[q := snd (get_next_field (reader_of fs self) queue loc binary_size)]> σ,
   fst (get_next_field (reader_of fs self) queue loc binary_size)).
Proof.
  intros Hq. unfold Shared.get_next_field, get_next_field.
  rewrite (lookup_total_correct _ _ _ Hq).
  unfold Shared.should_fill_blanks, should_fill_blanks, reader_of;
    cbn [opts].
  destruct (match binary_size with Some sz => loc >=? sz | None => false end);
    [cbn [fst snd]; rewrite insert_id by assumption; reflexivity|].
  destruct queue as [|first rest].
  - destruct binary_size; [destruct (include_gaps _)|];
      cbn [fst snd]; rewrite insert_id by assumption; reflexivity.
  - cbv zeta. destruct (get_start first) as [s|]; [|reflexivity].
    destruct (s >? loc); [destruct (include_gaps _)|destruct (s <=? loc)];
      cbn [fst snd]; try reflexivity; rewrite insert_id by assumption;
      reflexivity.
Qed.

Section SharedRefinement.

Variable read_sub : Shared.Store -> Shared.Reader -> Binary ->
                    Shared.Store * outcome Value.
Variable read_sub_value : Reader -> Binary -> outcome Value.

Hypothesis read_sub_frame : forall σ s b l,
  σ !! Shared.fields s = Some l -> σ ⊆ fst (read_sub σ s b).
Hypothesis read_sub_refines : forall σ s b l,
  σ !! Shared.fields s = Some l ->
  snd (read_sub σ s b) = read_sub_value (reader_of l s) b.

Lemma shared_decode_field (σ : Shared.Store) (self : Shared.Reader)
    (fs : list Field) (field : Field) (binary : Binary) (start_byte : Z)
    (preprocessor : PreprocessorFunc) :
  σ ⊆ fst (Shared.decode_field read_sub σ self field binary start_byte
                               preprocessor) /\
  snd (Shared.decode_field read_sub σ self field binary start_byte preprocessor)
  = decode_field read_sub_value (reader_of fs self) field binary start_byte
                 preprocessor.
Proof.
  unfold Shared.decode_field, decode_field.
  repeat (destruct (String.eqb _ _);
          [try (split; reflexivity); destruct field; split; reflexivity|]).
  destruct (String.eqb _ _); [|split; reflexivity].
  destruct field as [| |st len nm subs fn| |]; try (split; reflexivity).
  destruct (new_list_spec σ subs) as (Hfresh & Hcell & Hsub).
  destruct (Shared.new_list σ subs) as [a σ1]; simpl in *.
  change (vars (reader_of fs self)) with (Shared.vars self).
  change (opts (reader_of fs self)) with (Shared.opts self).
  destruct (get_length len (Shared.vars self)) as [n| |];
    try (split; [exact Hsub|reflexivity]).
  pose proof (read_sub_frame σ1
                (Shared.Reader_init a (Shared.opts self) preprocessor)
                (BinaryBlock binary start_byte n) subs Hcell) as Hfr.
  pose proof (read_sub_refines σ1
                (Shared.Reader_init a (Shared.opts self) preprocessor)
                (BinaryBlock binary start_byte n) subs Hcell) as Hre.
  change (reader_of subs (Shared.Reader_init a (Shared.opts self) preprocessor))
    with (Reader_init subs (Shared.opts self) preprocessor) in Hre.
  simpl. rewrite <- Hre.
  destruct (read_sub σ1 _ _) as [σ2 [v| |]]; simpl in *;
    (split; [etrans; eassumption|reflexivity]).
Qed.

Lemma shared_consume_field (σ : Shared.Store) (self : Shared.Reader)
    (fs : list Field) (field : Field) (binary : Binary) (cur_loc : Z) :
  match Shared.consume_field read_sub σ self field binary cur_loc with
  | (σ', self', o) =>
      σ ⊆ σ' /\
      Shared.fields self' = Shared.fields self /\
      consume_field read_sub_value (reader_of fs self) field binary cur_loc =
      (reader_of fs self', o)
  end.
Proof.
  unfold Shared.consume_field, consume_field.
  change (preprocess (reader_of fs self)) with (Shared.preprocess self).
  destruct (shared_decode_field σ self fs field binary
              (default cur_loc (get_start field))
              (compose (Shared.preprocess self) (get_preprocessor field)))
    as [Hfr Hre].
  rewrite <- Hre.
  destruct (Shared.decode_field _ _ _ _ _ _ _) as [σ' [[v l]| |]]; simpl in *;
    try (split; [exact Hfr|split; reflexivity]).
  split; [exact Hfr|].
  destruct (get_name field); split; reflexivity.
Qed.

Lemma shared_struct_loop (fuel : nat) (fs : list Field) (length : option Z)
    (binary : Binary) (q : positive) (σ : Shared.Store) (self : Shared.Reader)
    (queue : list Field) (cur_loc : Z) (completed : list FieldData) :
  σ !! q = Some queue ->
  match Shared.struct_loop read_sub fuel σ self length binary q cur_loc
                           completed with
  | (σ', self', o) =>
      delete q σ ⊆ delete q σ' /\
      Shared.fields self' = Shared.fields self /\
      struct_loop read_sub_value fuel (reader_of fs self) length binary queue
                  cur_loc completed = (reader_of fs self', o)
  end.
Proof.
  revert σ self queue cur_loc completed.
  induction fuel as [|fuel IH]; intros σ self queue cur_loc completed Hq.
  - simpl. split_and!; reflexivity.
  - cbn [Shared.struct_loop struct_loop].
    rewrite (shared_get_next_field σ self fs queue q cur_loc length Hq).
    destruct (get_next_field (reader_of fs self) queue cur_loc length)
      as [[[f|]| |] queue'] eqn:Hn; cbn [fst snd];
      try (split_and!; [rewrite delete_insert_eq|..]; reflexivity).
    pose proof (shared_consume_field (<[q := queue']> σ) self fs f binary
                  cur_loc) as Hc.
    destruct (Shared.consume_field _ _ _ _ _ _) as [[σ2 self2] o2].
    destruct Hc as (Hfr & Hf & Hre). rewrite Hre.
    assert (Hq2 : σ2 !! q = Some queue')
      by (eapply lookup_weaken; [apply lookup_insert_eq|exact Hfr]).
    assert (Hd : delete q σ ⊆ delete q σ2).
    { rewrite <- (delete_insert_eq σ q queue'). apply delete_mono, Hfr. }
    destruct o2 as [[l d]| |]; try (split_and!; [exact Hd|exact Hf|reflexivity]).
    specialize (IH σ2 self2 queue' l (completed ++ [d])%list Hq2).
    destruct (Shared.struct_loop _ _ _ _ _ _ _ _ _) as [[σ3 self3] o3].
    destruct IH as (Hfr3 & Hf3 & Hre3).
    split_and!; [etrans; eassumption|congruence|exact Hre3].
Qed.

Lemma shared_consume_struct (fuel : nat) (σ : Shared.Store)
    (self : Shared.Reader) (fs l : list Field) (fields : Shared.StructFieldRef)
    (binary : Binary) (loc : Z) :
  σ !! Shared.struct_fields fields = Some l ->
  match Shared.consume_struct read_sub fuel σ self fields binary loc with
  | (σ', self', o) =>
      σ ⊆ σ' /\
      Shared.fields self' = Shared.fields self /\
      consume_struct read_sub_value fuel (reader_of fs self)
        (StructField (Shared.struct_start fields) (Shared.struct_length fields)
                     (Shared.struct_name fields) l None)
        binary loc = (reader_of fs self', o)
  end.
Proof.
  intros Hl. unfold Shared.consume_struct, consume_struct.
  destruct (shared_deepcopy_spec σ _ l Hl) as (Hfresh & Hcell & Hsub).
  destruct (Shared.deepcopy σ (Shared.struct_fields fields)) as [q σ1];
    simpl in Hfresh, Hcell, Hsub.
  pose proof (shared_struct_loop fuel fs (Shared.struct_length fields) binary
                q σ1 self l loc [] Hcell) as Hloop.
  rewrite deepcopy_id.
  destruct (Shared.struct_loop _ _ _ _ _ _ _ _ _) as [[σ2 self2] o2].
  destruct Hloop as (Hfr & Hf & Hre). rewrite Hre.
  assert (Hfr' : σ ⊆ σ2).
  { etrans; [|apply delete_subseteq].
    etrans; [|exact Hfr].
    apply map_subseteq_spec. intros k v Hk.
    rewrite lookup_delete_ne by congruence.
    eapply lookup_weaken; eassumption. }
  destruct o2 as [[c d]| |]; split_and!; try assumption; reflexivity.
Qed.

End SharedRefinement.

(** A read on the reader object [self] whose list object holds [fs]:
    every list object of the store, the caller's among them, holds after
    the read what it held before; the reader still refers to the same list;
    and the read is the read of the value model on [fs]. *)
Lemma shared_read_binary (fuel : nat) (σ : Shared.Store) (self : Shared.Reader)
    (fs : list Field) (binary : Binary) :
  σ !! Shared.fields self = Some fs ->
  match Shared.read_binary fuel σ self binary with
  | (σ', self', o) =>
      σ ⊆ σ' /\
      Shared.fields self' = Shared.fields self /\
      read_binary fuel (reader_of fs self) binary = (reader_of fs self', o)
  end.
Proof.
  revert σ self fs binary.
  induction fuel as [|fuel IH]; intros σ self fs binary Hfs.
  - simpl. split_and!; reflexivity.
  - rewrite read_binary_S. cbn [Shared.read_binary].
    destruct (shared_deepcopy_spec σ _ fs Hfs) as (Hfresh & Hcell & Hsub).
    destruct (Shared.deepcopy σ (Shared.fields self)) as [a σ1];
      simpl in Hfresh, Hcell, Hsub.
    rewrite deepcopy_id. change (fields (reader_of fs self)) with fs.
    assert (Hframe : forall σ' s b l,
               σ' !! Shared.fields s = Some l ->
               σ' ⊆ fst (let '(σ'', _, o) := Shared.read_binary fuel σ' s b
                         in (σ'', o))).
    { intros σ' s b l Hl. specialize (IH σ' s l b Hl).
      destruct (Shared.read_binary fuel σ' s b) as [[σ'' s''] o''].
      destruct IH as (Hfr & _ & _). exact Hfr. }
    assert (Hrefines : forall σ' s b l,
               σ' !! Shared.fields s = Some l ->
               snd (let '(σ'', _, o) := Shared.read_binary fuel σ' s b
                    in (σ'', o)) =
               snd (read_binary fuel (reader_of l s) b)).
    { intros σ' s b l Hl. specialize (IH σ' s l b Hl).
      destruct (Shared.read_binary fuel σ' s b) as [[σ'' s''] o''].
      destruct IH as (_ & _ & ->). reflexivity. }
    pose proof (shared_consume_struct
                  (fun σ r b =>
                     let '(σ', _, o) := Shared.read_binary fuel σ r b in (σ', o))
                  (fun r b => snd (read_binary fuel r b))
                  Hframe Hrefines (S fuel) σ1 self fs fs
                  (Shared.mkStructFieldRef (Some 0) (Some (get_size binary))
                                           None a)
                  binary 0 Hcell) as Hcs.
    unfold Reader_consume_struct.
    cbn [Shared.struct_start Shared.struct_length Shared.struct_name
         Shared.struct_fields] in Hcs.
    destruct (Shared.consume_struct _ _ _ _ _ _ _) as [[σ2 self2] o2].
    destruct Hcs as (Hfr & Hf & Hre).
    rewrite Hre.
    destruct o2 as [[c d]| |];
      (split_and!; [etrans; eassumption|exact Hf|reflexivity]).
Qed.

Lemma shared_read_all (fuel : nat) (sources : list Binary) (σ : Shared.Store)
    (self : Shared.Reader) (fs : list Field) :
  σ !! Shared.fields self = Some fs ->
  match Shared.read_all fuel σ self sources with
  | (σ', self') =>
      σ ⊆ σ' /\
      Shared.fields self' = Shared.fields self /\
      reader_of fs self' = read_all fuel (reader_of fs self) sources
  end.
Proof.
  revert σ self. induction sources as [|b rest IH]; intros σ self Hfs.
  - simpl. split_and!; reflexivity.
  - cbn [Shared.read_all read_all].
    pose proof (shared_read_binary fuel σ self fs b Hfs) as Hr.
    destruct (Shared.read_binary fuel σ self b) as [[σ1 self1] o1].
    destruct Hr as (Hfr & Hf & Hre). rewrite Hre. cbn [fst].
    assert (Hfs1 : σ1 !! Shared.fields self1 = Some fs)
      by (rewrite Hf; eapply lookup_weaken; eassumption).
    specialize (IH σ1 self1 Hfs1).
    destruct (Shared.read_all fuel σ1 self1 rest) as [σ2 self2].
    destruct IH as (Hfr2 & Hf2 & Hre2).
    split_and!; [etrans; eassumption|congruence|exact Hre2].
Qed.

(** C6 (amended). A reader is constructed with an empty scope and with the
    caller's list itself.  [copy.deepcopy] gives a read a list object of its
    own: one the store did not hold, equal to the caller's list, every
    other list left as it was.  The lists a read pops from are such copies,
    so after any number of reads every list object that existed before,
    the caller's among them, holds what it held, and the reader still
    refers to the caller's list, with its options and its ambient transform
    unchanged.  The scope is the reader's own: a read never removes a
    binding from it, so a later read starts with the names the earlier
    reads bound.  On the list the caller passed, a read returns what the
    read of the value model returns.  In the last part a read of the
    one-descriptor schema is traced: the queue it popped from is a third
    list object, now empty, next to the caller's list and the first copy,
    both unchanged. *)
Theorem C6_reads_keep_schema_and_bindings :
  (forall fields options preprocess,
      Shared.vars (Shared.Reader_init fields options preprocess) = ∅ /\
      Shared.fields (Shared.Reader_init fields options preprocess) = fields)
  /\
  (forall (σ : Shared.Store) a l,
      let '(a', σ') := Shared.deepcopy (<[a := l]> σ) a in
      a' <> a /\
      (<[a := l]> σ) !! a' = None /\
      σ' !! a' = Some l /\
      <[a := l]> σ ⊆ σ')
  /\
  (forall fuel (σ : Shared.Store) self fs sources,
      let '(σ', self') :=
        Shared.read_all fuel (<[Shared.fields self := fs]> σ) self sources in
      <[Shared.fields self := fs]> σ ⊆ σ' /\
      σ' !! Shared.fields self' = Some fs /\
      Shared.fields self' = Shared.fields self /\
      Shared.opts self' = Shared.opts self /\
      Shared.preprocess self' = Shared.preprocess self /\
      dom (Shared.vars self) ⊆ dom (Shared.vars self') /\
      reader_of fs self' = read_all fuel (reader_of fs self) sources)
  /\
  (forall fuel (σ : Shared.Store) self fs binary,
      snd (Shared.read_binary fuel (<[Shared.fields self := fs]> σ) self binary)
      = snd (read_binary fuel (reader_of fs self) binary))
  /\
  (let '(σ', self', o) :=
     Shared.read_binary 5 {[1%positive := byte_x_at_2]}
                        (Shared.Reader_init 1 default_opts None) ten_byte_file in
   σ' !! 1%positive = Some byte_x_at_2 /\
   σ' !! 2%positive = Some byte_x_at_2 /\
   σ' !! 3%positive = Some [] /\
   Shared.vars self' !! "x" = Some (VInt 2) /\
   o = Ok (VList [mkFieldData "x" "u8" 2 (VInt 2)])).
Proof.
  split_and!.
  - intros. split; reflexivity.
  - intros σ a l.
    destruct (shared_deepcopy_spec (<[a := l]> σ) a l (lookup_insert_eq σ a l))
      as (Hfresh & Hcell & Hsub).
    destruct (Shared.deepcopy (<[a := l]> σ) a) as [a' σ']; simpl in *.
    split_and!; try assumption.
    intros ->. rewrite lookup_insert_eq in Hfresh. discriminate.
  - intros fuel σ self fs sources.
    pose proof (shared_read_all fuel sources (<[Shared.fields self := fs]> σ)
                  self fs (lookup_insert_eq σ _ fs)) as Hr.
    destruct (Shared.read_all fuel _ self sources) as [σ' self'].
    destruct Hr as (Hfr & Hf & Hre).
    pose proof (read_all_extends fuel sources (reader_of fs self))
      as (_ & Ho & Hp & Hd).
    rewrite <- Hre in Ho, Hp, Hd.
    split_and!; try assumption.
    rewrite Hf. eapply lookup_weaken; [apply lookup_insert_eq|exact Hfr].
  - intros fuel σ self fs binary.
    pose proof (shared_read_binary fuel (<[Shared.fields self := fs]> σ)
                  self fs binary (lookup_insert_eq σ _ fs)) as Hr.
    destruct (Shared.read_binary fuel _ self binary) as [[σ' self'] o].
    destruct Hr as (_ & _ & ->). reflexivity.
  - vm_compute. split_and!; reflexivity.
Qed.

(** ** Two reads of the same source *)

(** The length a nested block resolves against the scope of [self]; any
    other descriptor does not consult the scope. *)
Lemma decode_field_scope read_sub (s t : Reader) (field : Field)
    (binary : Binary) (start_byte : Z) (preprocessor : PreprocessorFunc) :
  opts s = opts t ->
  (forall st len nm subs fn,
      field = NestedBlockField st len nm subs fn ->
      get_length len (vars s) = get_length len (vars t)) ->
  decode_field read_sub s field binary start_byte preprocessor =
  decode_field read_sub t field binary start_byte preprocessor.
Proof.
  intros Ho Hl. unfold decode_field.
  repeat (destruct (String.eqb _ _); [reflexivity|]).
  destruct (String.eqb _ _); [|reflexivity].
  destruct field; try reflexivity.
  rewrite Ho. erewrite Hl by reflexivity. reflexivity.
Qed.

(** A length reference to a name the scope does not bind fails before the
    nested read starts and leaves the reader as it was. *)
Lemma consume_field_unbound read_sub (self : Reader) (start : option Z)
    (x : string) (name : option string) (subfields : list Field)
    (func : PreprocessorFunc) (binary : Binary) (cur_loc : Z) :
  vars self !! x = None ->
  consume_field read_sub self
    (NestedBlockField start (LenName x) name subfields func) binary cur_loc =
  (self, Raise (KeyError x)).
Proof.
  intros Hx. unfold consume_field, decode_field.
  cbn [get_type get_start]. eval_dispatch.
  cbn [get_length]. rewrite Hx. reflexivity.
Qed.

Section Rereading.

Variable read_sub : Reader -> Binary -> outcome Value.

Lemma consume_field_raise (s s' : Reader) (field : Field) (binary : Binary)
    (cur_loc : Z) (e : exn) :
  consume_field read_sub s field binary cur_loc = (s', Raise e) -> s' = s.
Proof.
  unfold consume_field.
  destruct (decode_field _ _ _ _ _ _) as [[v l]| |]; congruence.
Qed.

(** One step from the scope of [s] and from a scope [t] that agrees with
    [s] wherever [s] is bound: if the lengths are resolved alike, the steps
    produce the same outcome and the scopes still agree. *)
Lemma consume_field_sim (s t s' : Reader) (field : Field) (binary : Binary)
    (cur_loc : Z) (o : outcome (Z * FieldData)) :
  consume_field read_sub s field binary cur_loc = (s', o) ->
  opts s = opts t -> preprocess s = preprocess t ->
  vars s ⊆ vars t ->
  (forall e, o = Raise e -> dom (vars t) ⊆ dom (vars s)) ->
  exists t',
    consume_field read_sub t field binary cur_loc = (t', o) /\
    opts s' = opts t' /\ preprocess s' = preprocess t' /\
    vars s' ⊆ vars t' /\
    dom (vars t') ⊆ dom (vars t) ∪ dom (vars s').
Proof.
  intros Hc Ho Hp Hsub Hdom.
  assert (Hlen : forall st len nm subs fn,
             field = NestedBlockField st len nm subs fn ->
             get_length len (vars s) = get_length len (vars t)).
  { intros st len nm subs fn ->. destruct len as [|n|x]; try reflexivity.
    simpl. destruct (vars s !! x) as [v|] eqn:Hx.
    - rewrite (lookup_weaken _ _ _ _ Hx Hsub). reflexivity.
    - rewrite consume_field_unbound in Hc by assumption.
      injection Hc as _ <-.
      assert (vars t !! x = None) as ->; [|reflexivity].
      apply not_elem_of_dom. intros Hin.
      apply (Hdom _ eq_refl), elem_of_dom in Hin as [v Hv]. congruence. }
  unfold consume_field in *. rewrite <- Hp.
  rewrite <- (decode_field_scope read_sub s t) by assumption.
  destruct (decode_field _ _ _ _ _ _) as [[v l]| |]; injection Hc as <- <-.
  - destruct (get_name field) as [n|]; eexists; (split; [reflexivity|]);
      simpl; split_and!; try assumption.
    + by apply insert_mono.
    + rewrite !dom_insert_L. set_solver.
    + set_solver.
  - eexists; split; [reflexivity|]. split_and!; try assumption. set_solver.
  - eexists; split; [reflexivity|]. split_and!; try assumption. set_solver.
Qed.

(** The struct loop from the scope [s] and from a scope [t] that agrees
    with [s] wherever [s] is bound and binds nothing the run from [s] does
    not end up binding: both runs end alike. *)
Lemma struct_loop_sim (fuel : nat) (length : option Z) (binary : Binary) :
  forall (s t s' : Reader) (queue : list Field) (cur_loc : Z)
         (completed : list FieldData) (o : outcome (Z * list FieldData)),
    struct_loop read_sub fuel s length binary queue cur_loc completed = (s', o) ->
    opts s = opts t -> preprocess s = preprocess t ->
    vars s ⊆ vars t ->
    dom (vars t) ⊆ dom (vars s') ->
    exists t',
      struct_loop read_sub fuel t length binary queue cur_loc completed = (t', o) /\
      vars s' ⊆ vars t' /\ dom (vars t') ⊆ dom (vars s').
Proof.
  induction fuel as [|fuel IH]; intros s t s' queue cur_loc completed o; simpl.
  - intros [= <- <-] _ _ Hsub Hdom. exists t. split_and!; done.
  - rewrite !get_next_field_policy. unfold should_fill_blanks.
    intros Hl Ho Hp Hsub Hdom. rewrite <- Ho.
    destruct (fst (next_field_policy _ _ _ _)) as [f|].
    + destruct (consume_field read_sub s f binary cur_loc) as [s1 o1] eqn:Hc.
      assert (Hext : extends s1 s').
      { destruct o1 as [[l d]| |].
        - eapply struct_loop_extends; eassumption.
        - injection Hl as <- _. apply extends_refl.
        - injection Hl as <- _. apply extends_refl. }
      destruct (consume_field_sim _ t _ _ _ _ _ Hc Ho Hp Hsub)
        as (t1 & Hct & Ho1 & Hp1 & Hsub1 & Hdom1).
      { intros e ->. injection Hl as <- _.
        by rewrite (consume_field_raise _ _ _ _ _ _ Hc) in Hdom. }
      rewrite Hct.
      destruct Hext as (_ & _ & _ & Hd1).
      assert (Hdt : dom (vars t1) ⊆ dom (vars s')) by set_solver.
      destruct o1 as [[l d]| |].
      * eapply IH; eassumption.
      * injection Hl as <- <-. exists t1. split_and!; done.
      * injection Hl as <- <-. exists t1. split_and!; done.
    + injection Hl as <- <-. exists t. split_and!; done.
Qed.

End Rereading.

Lemma Reader_eq (r1 r2 : Reader) :
  fields r1 = fields r2 -> opts r1 = opts r2 -> vars r1 = vars r2 ->
  preprocess r1 = preprocess r2 -> r1 = r2.
Proof. destruct r1, r2; simpl; intros -> -> -> ->; reflexivity. Qed.

Lemma consume_struct_reread read_sub (fuel : nat) (s s' : Reader)
    (fields : Field) (binary : Binary) (loc : Z) (o : outcome (Z * FieldData)) :
  vars s = ∅ ->
  consume_struct read_sub fuel s fields binary loc = (s', o) ->
  consume_struct read_sub fuel s' fields binary loc = (s', o).
Proof.
  intros Hv. unfold consume_struct.
  destruct fields as [| |? ? ? ? ?|st len nm subs fn|]; try congruence.
  destruct (struct_loop read_sub fuel s len binary (deepcopy subs) loc [])
    as [s1 o1] eqn:Hl.
  intros Hs.
  assert (s1 = s') as -> by (destruct o1 as [[? ?]| |]; congruence).
  pose proof (struct_loop_extends _ _ _ _ _ _ _ _ _ _ Hl) as (Hf & Ho & Hp & _).
  destruct (struct_loop_sim read_sub fuel len binary s s' s' _ _ _ _ Hl)
    as (t' & Hlt & Hsub & Hdom); try done.
  { rewrite Hv. apply map_empty_subseteq. }
  assert (t' = s') as ->.
  { pose proof (struct_loop_extends _ _ _ _ _ _ _ _ _ _ Hlt) as (Hf' & Ho' & Hp' & _).
    apply Reader_eq; try done. symmetry. by apply subseteq_dom_eq. }
  rewrite Hlt. exact Hs.
Qed.

(** ** C9: reading twice *)

(** C9. On a reader as its constructor leaves it, a second read of the same
    source ends exactly as the first one did: the same result tree (or the
    same exception), and the reader in the same state, so that every further
    read of that source repeats it.  The length-prefixed scenario of the
    specification returns its tree on the first read and on the second. *)
Theorem C9_second_read_repeats_first :
  (forall fuel fields options preprocess binary,
      read_binary fuel
        (fst (read_binary fuel (Reader_init fields options preprocess) binary))
        binary =
      read_binary fuel (Reader_init fields options preprocess) binary)
  /\
  snd (read_binary 5 (Reader_init length_prefixed_schema default_opts None)
                   length_prefixed_file) = Ok length_prefixed_tree
  /\
  snd (read_binary 5
         (fst (read_binary 5
                 (Reader_init length_prefixed_schema default_opts None)
                 length_prefixed_file))
         length_prefixed_file) = Ok length_prefixed_tree.
Proof.
  split; [|split; reflexivity].
  intros [|fuel] fs options pre binary; [reflexivity|].
  set (r0 := Reader_init fs options pre).
  pose proof (read_binary_extends (S fuel) r0 binary) as (Hf & _).
  rewrite (read_binary_S fuel r0) in *.
  destruct (Reader_consume_struct fuel (S fuel) r0 _ binary 0)
    as [s' o] eqn:Hc.
  assert (fst (let (self', o0) := (s', o) in
               match o0 with
               | Ok (_, res) => (self', Ok (val res))
               | Raise e => (self', Raise e)
               | OutOfFuel => (self', OutOfFuel)
               end) = s') as Hfst by (destruct o as [[? ?]| |]; reflexivity).
  cbv zeta in *. rewrite Hfst in *. clear Hfst.
  rewrite read_binary_S, Hf.
  unfold Reader_consume_struct in *.
  rewrite (consume_struct_reread _ _ r0 s' _ _ _ o eq_refl Hc).
  reflexivity.
Qed.

(** ** C8: the scope of a length reference *)

(** C8. The children of a nested block are read by a reader of their own,
    whose scope starts empty, and what they bind stays there: after a
    nested block is resolved, the enclosing scope has gained at most the
    block's own name.  So a sibling block whose length names [x], where [x]
    is bound neither in the enclosing scope nor by the first block itself,
    fails with the [KeyError] of the lookup and leaves the reader as it
    was. *)
Theorem C8_nested_scopes_are_separate
    (fuel : nat) (self self1 : Reader) (binary : Binary) (cur loc1 : Z)
    (d1 : FieldData) (x : string)
    (start1 : option Z) (len1 : LengthSpec) (name1 : option string)
    (subs1 : list Field) (func1 : PreprocessorFunc)
    (start2 : option Z) (name2 : option string) (subs2 : list Field)
    (func2 : PreprocessorFunc) :
  vars self !! x = None ->
  name1 <> Some x ->
  Reader_consume_field fuel self
    (NestedBlockField start1 len1 name1 subs1 func1) binary cur
    = (self1, Ok (loc1, d1)) ->
  vars (Reader_init subs1 (opts self) (compose (preprocess self) func1)) = ∅
  /\
  (exists len,
      get_length len1 (vars self) = Ok len /\
      snd (read_binary fuel
             (Reader_init subs1 (opts self) (compose (preprocess self) func1))
             (BinaryBlock binary (default cur start1) len)) = Ok (val d1))
  /\
  vars self1 !! x = None
  /\
  Reader_consume_field fuel self1
    (NestedBlockField start2 (LenName x) name2 subs2 func2) binary loc1
    = (self1, Raise (KeyError x)).
Proof.
  intros Hx Hn Hc.
  unfold Reader_consume_field in *.
  unfold consume_field, decode_field in Hc.
  cbn [get_type get_start get_preprocessor get_name] in Hc.
  revert Hc. eval_dispatch.
  destruct (get_length len1 (vars self)) as [len| |] eqn:Hlen; cbn;
    try discriminate.
  destruct (snd (read_binary fuel _ _)) as [v| |] eqn:Hr; cbn;
    try discriminate.
  intros [= <- <- <-].
  assert (Hx1 : vars (match name1 with
                      | Some name => set_var self name v
                      | None => self
                      end) !! x = None).
  { destruct name1 as [n|]; [|exact Hx]. simpl.
    rewrite lookup_insert_ne by congruence. exact Hx. }
  split_and!; [reflexivity| |exact Hx1|by apply consume_field_unbound].
  exists len. split; [reflexivity|exact Hr].
Qed.

(** A block that binds [n] inside, then a block whose length names [n]. *)
Lemma C8_nested_scopes_are_separate_witness :
  vars (Reader_init [byte_named_n] (opts sibling_scope_reader)
                    (compose (preprocess sibling_scope_reader) None)) = ∅
  /\
  (exists len,
      get_length (LenInt 1) (vars sibling_scope_reader) = Ok len /\
      snd (read_binary 5
             (Reader_init [byte_named_n] (opts sibling_scope_reader)
                          (compose (preprocess sibling_scope_reader) None))
             (BinaryBlock ten_byte_file (default 0 (Some 0)) len)) =
      Ok (val (mkFieldData "blk" "nested" 0
                 (VList [mkFieldData "n" "u8" 0 (VInt 0)]))))
  /\
  vars (set_var sibling_scope_reader "blk"
          (VList [mkFieldData "n" "u8" 0 (VInt 0)])) !! "n" = None
  /\
  Reader_consume_field 5
    (set_var sibling_scope_reader "blk"
       (VList [mkFieldData "n" "u8" 0 (VInt 0)]))
    (NestedBlockField (Some 1) (LenName "n") None [] None) ten_byte_file 0
    = (set_var sibling_scope_reader "blk"
         (VList [mkFieldData "n" "u8" 0 (VInt 0)]),
       Raise (KeyError "n")).
Proof.
  apply (C8_nested_scopes_are_separate
           5 sibling_scope_reader _ ten_byte_file 0 0
           (mkFieldData "blk" "nested" 0
              (VList [mkFieldData "n" "u8" 0 (VInt 0)]))
           "n" (Some 0) (LenInt 1) (Some "blk") [byte_named_n] None
           (Some 1) None [] None).
  - reflexivity.
  - discriminate.
  - reflexivity.
Defined.

(** The whole read of the two sibling blocks ends in that [KeyError]. *)
Example sibling_scope_read_fails :
  snd (read_binary 5 sibling_scope_reader ten_byte_file) = Raise (KeyError "n").
Proof. reflexivity. Qed.

(** ** C10: two siblings with one name *)



(** * Further properties of the code *)

(** ** Reads of a file and of views *)

Lemma root_offset_add (self : Binary) (start k : Z) :
  root_offset self (start + k) = root_offset self start + k.
Proof.
  revert start. induction self as [c e|u IH o e l]; intros start; simpl.
  - reflexivity.
  - rewrite <- IH. f_equal. lia.
Qed.

(** X1. A read of [n >= 0] bytes at a position that is not negative in the
    file never fails and returns exactly the slice of the file that starts
    there: at most [n] bytes, fewer only at the end of the file, and byte
    [i] of the answer is byte [position + i] of the file, through any stack
    of views. *)
Theorem get_bytes_is_file_slice (self : Binary) (start n : Z) :
  0 <= root_offset self start -> 0 <= n ->
  exists bs,
    get_bytes self start n None = Ok bs /\
    Z.of_nat (List.length bs) =
      Z.min n (Z.max 0 (Z.of_nat (List.length (root_contents self))
                        - root_offset self start)) /\
    forall i : nat,
      (i < List.length bs)%nat ->
      bs !! i = root_contents self !! (Z.to_nat (root_offset self start) + i)%nat.
Proof.
  intros Hs Hn. exists (available self start n). split_and!.
  - by rewrite get_bytes_available.
  - by apply available_length.
  - intros i Hi. unfold available in *.
    rewrite length_take in Hi. unfold bytes in *.
    rewrite lookup_take_lt by lia. apply lookup_drop.
Qed.

(** A read of three bytes at 1 through a view at offset 2 of the ten-byte
    file. *)
Lemma get_bytes_is_file_slice_witness :
  exists bs,
    get_bytes (BinaryBlock ten_byte_file 2 3) 1 3 None = Ok bs /\
    Z.of_nat (List.length bs) =
      Z.min 3 (Z.max 0 (Z.of_nat (List.length
                                    (root_contents (BinaryBlock ten_byte_file 2 3)))
                        - root_offset (BinaryBlock ten_byte_file 2 3) 1)) /\
    forall i : nat,
      (i < List.length bs)%nat ->
      bs !! i = root_contents (BinaryBlock ten_byte_file 2 3)
                  !! (Z.to_nat (root_offset (BinaryBlock ten_byte_file 2 3) 1) + i)%nat.
Proof.
  apply (get_bytes_is_file_slice (BinaryBlock ten_byte_file 2 3) 1 3).
  - simpl. lia.
  - lia.
Defined.

(** X2. A read whose position falls before the start of the file fails
    with the error of the seek, whatever the length and the transform,
    through any stack of views. *)
Theorem get_bytes_before_file_start (self : Binary) (start n : Z)
    (func : PreprocessorFunc) :
  root_offset self start < 0 ->
  get_bytes self start n func = Raise OSError.
Proof.
  revert start. induction self as [c e|u IH o e l]; intros start Hs; simpl in *.
  - unfold file_seek. destruct (Z.ltb_spec start 0); [reflexivity|lia].
  - by apply IH.
Qed.

Lemma get_bytes_before_file_start_witness :
  get_bytes (BinaryBlock ten_byte_file (-4) 3) 1 2 None = Raise OSError.
Proof.
  apply (get_bytes_before_file_start (BinaryBlock ten_byte_file (-4) 3) 1 2 None).
  simpl. lia.
Defined.

(** X3. Views built by the constructor inherit the byte order of the file
    at the bottom, at any depth, and report the length of the outermost
    window as their size. *)
Theorem views_inherit_endianness (file : Binary) (windows : list (Z * Z)) :
  endianness (views file windows) = endianness file /\
  (forall offset length,
      get_size (views file ((offset, length) :: windows)) = length).
Proof.
  split; [|reflexivity].
  induction windows as [|[o l] rest IH]; simpl; [reflexivity|exact IH].
Qed.

(** X4. A view of a view reads like one view at the sum of the offsets:
    the window of the inner view plays no part. *)
Theorem view_of_view_flattens (underlying : Binary) (o1 l1 o2 l2 start n : Z)
    (func : PreprocessorFunc) :
  get_bytes (BinaryBlock (BinaryBlock underlying o1 l1) o2 l2) start n func =
  get_bytes (BinaryBlock underlying (o1 + o2) l2) start n func /\
  get_size (BinaryBlock (BinaryBlock underlying o1 l1) o2 l2) =
  get_size (BinaryBlock underlying (o1 + o2) l2) /\
  endianness (BinaryBlock (BinaryBlock underlying o1 l1) o2 l2) =
  endianness (BinaryBlock underlying (o1 + o2) l2).
Proof.
  split_and!; try reflexivity. simpl. f_equal. lia.
Qed.

(** ** Integer decoding *)

Lemma byte_value_bound (b : byte) : 0 <= Z.of_N (Byte.to_N b) < 256.
Proof. pose proof (Byte.to_N_bounded b). lia. Qed.

Lemma byte_value_inj (a b : byte) :
  Z.of_N (Byte.to_N a) = Z.of_N (Byte.to_N b) -> a = b.
Proof.
  intros H. apply N2Z.inj in H.
  pose proof (Byte.of_to_N a) as Ha. rewrite H, Byte.of_to_N in Ha.
  congruence.
Qed.

Lemma le_value_bound (bs : bytes) :
  0 <= le_value bs < 2 ^ (8 * Z.of_nat (List.length bs)).
Proof.
  induction bs as [|b rest IH]; [simpl; lia|].
  cbn [le_value List.length]. pose proof (byte_value_bound b).
  replace (8 * Z.of_nat (S (List.length rest)))
    with (8 + 8 * Z.of_nat (List.length rest)) by lia.
  rewrite Z.pow_add_r by lia. change (2 ^ 8) with 256. lia.
Qed.

Lemma le_value_inj (bs1 bs2 : bytes) :
  List.length bs1 = List.length bs2 -> le_value bs1 = le_value bs2 -> bs1 = bs2.
Proof.
  revert bs2. induction bs1 as [|a r1 IH]; intros [|b r2]; try discriminate;
    [reflexivity|].
  cbn [le_value List.length]. intros [= Hl] Hv.
  pose proof (byte_value_bound a). pose proof (byte_value_bound b).
  assert (Z.of_N (Byte.to_N a) = Z.of_N (Byte.to_N b)) as Hab by lia.
  f_equal; [by apply byte_value_inj|]. apply IH; [exact Hl|lia].
Qed.

Lemma unsigned_value_bound (bs : bytes) (e : Endianness) :
  0 <= unsigned_value bs e < 2 ^ (8 * Z.of_nat (List.length bs)).
Proof.
  destruct e; simpl; [apply le_value_bound|].
  rewrite <- (length_rev bs). apply le_value_bound.
Qed.

Lemma unsigned_value_inj (bs1 bs2 : bytes) (e : Endianness) :
  List.length bs1 = List.length bs2 ->
  unsigned_value bs1 e = unsigned_value bs2 e -> bs1 = bs2.
Proof.
  destruct e; simpl; intros Hl Hv; [by apply le_value_inj|].
  assert (rev bs1 = rev bs2) as Hr
    by (apply le_value_inj; [by rewrite !length_rev|exact Hv]).
  rewrite <- (rev_involutive bs1), Hr. apply rev_involutive.
Qed.

Lemma signed_mod_unsigned (bs : bytes) (e : Endianness) :
  int_from_bytes bs e false =
  int_from_bytes bs e true mod 2 ^ (8 * Z.of_nat (List.length bs)).
Proof.
  unfold int_from_bytes. pose proof (unsigned_value_bound bs e) as Hb.
  cbn [andb negb].
  destruct (8 * Z.of_nat (List.length bs) =? 0) eqn:Hz; cbn [negb andb].
  - rewrite Z.mod_small; lia.
  - destruct (_ <=? _).
    + rewrite <- (Z.mod_small (unsigned_value bs e) _ Hb) at 1.
      rewrite <- Zminus_mod_idemp_r, Z.mod_same, Z.sub_0_r; lia.
    + rewrite Z.mod_small; lia.
Qed.

(** X5. Two's complement: the signed reading of a byte string and its
    unsigned reading differ by a multiple of [2 ^ bits]; the unsigned one is
    the signed one reduced modulo [2 ^ bits], where [bits] is eight times
    the number of bytes actually decoded. *)
Theorem signed_unsigned_same_residue (bs : bytes) (e : Endianness) :
  int_from_bytes bs e false =
  int_from_bytes bs e true mod 2 ^ (8 * Z.of_nat (List.length bs)).
Proof.
  unfold int_from_bytes. pose proof (unsigned_value_bound bs e) as Hb.
  cbn [andb negb].
  destruct (8 * Z.of_nat (List.length bs) =? 0) eqn:Hz; cbn [negb andb].
  - rewrite Z.mod_small; lia.
  - destruct (_ <=? _).
    + rewrite <- (Z.mod_small (unsigned_value bs e) _ Hb) at 1.
      rewrite <- Zminus_mod_idemp_r, Z.mod_same, Z.sub_0_r; lia.
    + rewrite Z.mod_small; lia.
Qed.

Lemma int_from_bytes_bounds (bs : bytes) (e : Endianness) :
  0 <= int_from_bytes bs e false < 2 ^ (8 * Z.of_nat (List.length bs)) /\
  match bs with
  | [] => int_from_bytes bs e true = 0
  | _ :: _ =>
      - 2 ^ (8 * Z.of_nat (List.length bs) - 1) <= int_from_bytes bs e true
        < 2 ^ (8 * Z.of_nat (List.length bs) - 1)
  end.
Proof.
  pose proof (unsigned_value_bound bs e) as Hb.
  split; [exact Hb|].
  destruct bs as [|b rest]; [by destruct e|].
  set (bs := b :: rest) in *.
  unfold int_from_bytes. cbn [andb].
  assert (0 < Z.of_nat (List.length bs)) by (simpl; lia).
  destruct (Z.eqb_spec (8 * Z.of_nat (List.length bs)) 0); [lia|].
  cbn [negb andb].
  assert (2 ^ (8 * Z.of_nat (List.length bs)) =
          2 * 2 ^ (8 * Z.of_nat (List.length bs) - 1)) as Hp.
  { rewrite <- Z.pow_succ_r by lia. f_equal. lia. }
  destruct (Z.leb_spec (2 ^ (8 * Z.of_nat (List.length bs) - 1))
                       (unsigned_value bs e)); lia.
Qed.

(** X6. The range of a decoded integer is that of the bytes actually
    decoded: [0 .. 2^bits - 1] unsigned, [-2^(bits-1) .. 2^(bits-1) - 1]
    signed, and 0 for no bytes at all. *)
Theorem int_from_bytes_range (bs : bytes) (e : Endianness) :
  0 <= int_from_bytes bs e false < 2 ^ (8 * Z.of_nat (List.length bs)) /\
  match bs with
  | [] => int_from_bytes bs e true = 0
  | _ :: _ =>
      - 2 ^ (8 * Z.of_nat (List.length bs) - 1) <= int_from_bytes bs e true
        < 2 ^ (8 * Z.of_nat (List.length bs) - 1)
  end.
Proof.
  pose proof (unsigned_value_bound bs e) as Hb.
  split; [exact Hb|].
  destruct bs as [|b rest]; [by destruct e|].
  set (bs := b :: rest) in *.
  unfold int_from_bytes. cbn [andb].
  assert (0 < Z.of_nat (List.length bs)) by (simpl; lia).
  destruct (Z.eqb_spec (8 * Z.of_nat (List.length bs)) 0); [lia|].
  cbn [negb andb].
  assert (2 ^ (8 * Z.of_nat (List.length bs)) =
          2 * 2 ^ (8 * Z.of_nat (List.length bs) - 1)) as Hp.
  { rewrite <- Z.pow_succ_r by lia. f_equal. lia. }
  destruct (Z.leb_spec (2 ^ (8 * Z.of_nat (List.length bs) - 1))
                       (unsigned_value bs e)); lia.
Qed.

(** X7. Decoding loses nothing: two byte strings of the same length that
    decode to the same integer, in the same byte order and signedness, are
    the same byte string. *)
Theorem int_from_bytes_inj (bs1 bs2 : bytes) (e : Endianness) (signed : bool) :
  List.length bs1 = List.length bs2 ->
  int_from_bytes bs1 e signed = int_from_bytes bs2 e signed ->
  bs1 = bs2.
Proof.
  intros Hl Hv. apply (unsigned_value_inj _ _ e Hl).
  change (int_from_bytes bs1 e false = int_from_bytes bs2 e false).
  destruct signed; [|exact Hv].
  rewrite !signed_mod_unsigned, Hl, Hv. reflexivity.
Qed.

Lemma int_from_bytes_inj_witness : [x01; x02] = [x01; x02] :> bytes.
Proof.
  apply (int_from_bytes_inj [x01; x02] [x01; x02] big true); reflexivity.
Defined.

Lemma get_bytes_length_le (self : Binary) (start n : Z) (bs : bytes) :
  0 <= n -> get_bytes self start n None = Ok bs ->
  Z.of_nat (List.length bs) <= n.
Proof.
  intros Hn. revert start.
  induction self as [c e|u IH o e l]; intros start; simpl; [|apply IH].
  unfold file_seek, file_read.
  destruct (start <? 0); [discriminate|]. cbn.
  destruct (Z.ltb_spec n (-1)); [lia|].
  destruct (Z.eqb_spec n (-1)); [lia|].
  intros [= <-]. rewrite length_take. lia.
Qed.

Lemma decoded_within_width (bs : bytes) (e : Endianness) (signed : bool)
    (w : Z) :
  0 < w -> Z.of_nat (List.length bs) <= w ->
  if signed
  then - 2 ^ (8 * w - 1) <= int_from_bytes bs e signed < 2 ^ (8 * w - 1)
  else 0 <= int_from_bytes bs e signed < 2 ^ (8 * w).
Proof.
  intros Hw Hl. destruct (int_from_bytes_bounds bs e) as [Hu Hs].
  destruct signed.
  - destruct bs as [|b rest].
    + rewrite Hs. assert (0 < 2 ^ (8 * w - 1)) by (apply Z.pow_pos_nonneg; lia).
      lia.
    + set (bs := b :: rest) in *.
      assert (0 < Z.of_nat (List.length bs)) by (simpl; lia).
      assert (2 ^ (8 * Z.of_nat (List.length bs) - 1) <= 2 ^ (8 * w - 1))
        by (apply Z.pow_le_mono_r; lia).
      lia.
  - assert (2 ^ (8 * Z.of_nat (List.length bs)) <= 2 ^ (8 * w))
      by (apply Z.pow_le_mono_r; lia).
    lia.
Qed.

(** X8. Without a transform, every fixed-width decoder that returns
    returns an integer in the range of its declared width, on any source
    and at any offset, also when the read was cut short by the end of the
    file: [0 .. 2^(8w) - 1] for the unsigned ones, [-2^(8w-1) ..
    2^(8w-1) - 1] for the signed ones. *)
Theorem decoder_result_in_range
    (get : Binary -> Z -> PreprocessorFunc -> outcome Z) (w : Z) (signed : bool)
    (self : Binary) (loc v : Z) :
  (get, w, signed) ∈ decoders ->
  get self loc None = Ok v ->
  if signed then - 2 ^ (8 * w - 1) <= v < 2 ^ (8 * w - 1)
  else 0 <= v < 2 ^ (8 * w).
Proof.
  unfold decoders. intros Hin Hget.
  repeat (apply elem_of_cons in Hin as [[= -> -> ->]|Hin]);
    [..|by apply elem_of_nil in Hin];
    unfold get_u8, get_i8, get_u16, get_i16, get_u32, get_i32, get_u64, get_i64
      in Hget;
    destruct (get_bytes self loc _ None) as [bs| |] eqn:Hb; try discriminate;
    injection Hget as <-;
    apply get_bytes_length_le in Hb; try lia;
    match goal with
    | |- context [int_from_bytes _ _ ?s] =>
        apply (decoded_within_width bs (endianness self) s); lia
    end.
Qed.

(** The signed 16-bit reading of the two-byte file. *)
Lemma decoder_result_in_range_witness :
  if true then - 2 ^ (8 * 2 - 1) <= -17494 < 2 ^ (8 * 2 - 1)
  else 0 <= -17494 < 2 ^ (8 * 2).
Proof.
  apply (decoder_result_in_range get_i16 2 true two_byte_file 0 (-17494)).
  - do 3 apply list_elem_of_further. apply list_elem_of_here.
  - reflexivity.
Defined.

(** ** Null-terminated strings *)

Lemma bytes_find_None (x : byte) (l : bytes) :
  bytes_find x l = None <-> x ∉ l.
Proof.
  induction l as [|b r IH]; simpl.
  - split; [intros _; apply not_elem_of_nil|reflexivity].
  - destruct (Byte.eqb b x) eqn:Hb.
    + apply Byte.byte_dec_bl in Hb as ->.
      split; [discriminate|]. intros Hn. exfalso. apply Hn. left.
    + apply Byte.eqb_false in Hb. rewrite not_elem_of_cons.
      destruct (bytes_find x r); simpl.
      * split; [discriminate|]. intros [_ Hn]. by apply IH in Hn.
      * split; [|reflexivity]. intros _. split; [congruence|by apply IH].
Qed.

Lemma bytes_find_Some (x : byte) (l : bytes) (i : nat) :
  bytes_find x l = Some i ->
  (i < List.length l)%nat /\ bytes_find x (take i l) = None.
Proof.
  revert i. induction l as [|b r IH]; intros i; simpl; [discriminate|].
  destruct (Byte.eqb b x) eqn:Hb.
  - intros [= <-]. split; [lia|reflexivity].
  - destruct (bytes_find x r) as [j|]; simpl; [|discriminate].
    intros [= <-]. destruct (IH j eq_refl) as [Hl Hn].
    split; [lia|]. simpl. by rewrite Hb, Hn.
Qed.

Lemma bytes_find_app_Some (x : byte) (l r : bytes) (i : nat) :
  bytes_find x l = Some i -> bytes_find x (l ++ r)%list = Some i.
Proof.
  revert i. induction l as [|b l IH]; intros i; simpl; [discriminate|].
  destruct (Byte.eqb b x); [done|].
  destruct (bytes_find x l) as [j|]; simpl; [|discriminate].
  intros [= <-]. by rewrite (IH j eq_refl).
Qed.

Lemma until_zero_app_found (l r : bytes) (i : nat) :
  bytes_find x00 l = Some i -> until_zero (l ++ r)%list = take i l.
Proof.
  intros Hf. unfold until_zero. rewrite (bytes_find_app_Some _ _ r _ Hf).
  apply bytes_find_Some in Hf as [Hl _]. apply take_app_le. lia.
Qed.

Lemma cstring_loop_correct (fuel : nat) (self : Binary) :
  forall (buf : bytes) (cur_loc : Z),
    0 <= root_offset self cur_loc ->
    bytes_find x00 buf = None ->
    Z.of_nat (List.length (drop (Z.to_nat (root_offset self cur_loc))
                                (root_contents self)))
      < Z.of_nat fuel * STR_BUF_LEN ->
    cstring_loop fuel self None buf cur_loc =
    Ok (until_zero (buf ++ drop (Z.to_nat (root_offset self cur_loc))
                                (root_contents self))%list).
Proof.
  unfold STR_BUF_LEN.
  induction fuel as [|fuel IH]; intros buf cur_loc Hpos Hbuf Hfuel; [lia|].
  cbn [cstring_loop]. unfold STR_BUF_LEN.
  rewrite get_bytes_available by lia. unfold available. cbn.
  set (rest := drop (Z.to_nat (root_offset self cur_loc)) (root_contents self))
    in *.
  set (chunk := take (Z.to_nat 1024) rest).
  assert (Hrest : rest = (chunk ++ drop (Z.to_nat 1024) rest)%list)
    by (symmetry; apply take_drop).
  destruct (bytes_find x00 (buf ++ chunk)%list) as [i|] eqn:Hf.
  - rewrite Hrest, app_assoc. cbn. f_equal. symmetry.
    by apply until_zero_app_found.
  - assert (Hlen : List.length chunk = Nat.min (Z.to_nat 1024) (List.length rest))
      by apply length_take.
    destruct (Z.ltb_spec (Z.of_nat (List.length chunk)) 1024) as [Hshort|Hfull].
    + assert (chunk = rest) as Heq by (apply take_ge; lia).
      cbn. rewrite <- Heq. unfold until_zero. by rewrite Hf.
    + rewrite IH.
      * f_equal. f_equal. rewrite <- app_assoc. f_equal.
        rewrite root_offset_add. rewrite Hrest at 1. f_equal.
        unfold rest. rewrite drop_drop. f_equal. lia.
      * rewrite root_offset_add. lia.
      * exact Hf.
      * rewrite root_offset_add.
        replace (Z.to_nat (root_offset self cur_loc + Z.of_nat (List.length chunk)))
          with (Z.to_nat (root_offset self cur_loc) + Z.to_nat 1024)%nat by lia.
        rewrite <- drop_drop. fold rest. rewrite length_drop. lia.
Qed.

(** X9. Without a transform and with enough chunks allowed, [get_cstring]
    returns the bytes of the file from the starting position up to, and
    without, the first zero byte, or up to the end of the file when there
    is none, wherever the zero byte falls with respect to the 1024-byte
    chunks. *)
Theorem get_cstring_reads_until_zero (fuel : nat) (self : Binary) (loc : Z) :
  0 <= root_offset self loc ->
  Z.of_nat (List.length (drop (Z.to_nat (root_offset self loc))
                              (root_contents self)))
    < Z.of_nat fuel * STR_BUF_LEN ->
  get_cstring fuel self loc None =
  Ok (until_zero (drop (Z.to_nat (root_offset self loc)) (root_contents self))).
Proof.
  intros Hpos Hfuel. unfold get_cstring.
  by rewrite cstring_loop_correct.
Qed.

Lemma get_cstring_reads_until_zero_witness :
  get_cstring 1 hello_file 0 None =
  Ok (until_zero (drop (Z.to_nat (root_offset hello_file 0))
                       (root_contents hello_file))).
Proof.
  apply (get_cstring_reads_until_zero 1 hello_file 0).
  - simpl. lia.
  - vm_compute. reflexivity.
Defined.

Lemma cstring_loop_no_zero (fuel : nat) (self : Binary) (func : PreprocessorFunc) :
  forall (buf : bytes) (cur_loc : Z) (bs : bytes),
    cstring_loop fuel self func buf cur_loc = Ok bs -> bytes_find x00 bs = None.
Proof.
  induction fuel as [|fuel IH]; intros buf cur_loc bs; [discriminate|].
  cbn [cstring_loop].
  destruct (get_bytes self cur_loc STR_BUF_LEN func) as [chunk| |]; cbn;
    try discriminate.
  destruct (bytes_find x00 (buf ++ chunk)%list) as [i|] eqn:Hf.
  - intros [= <-]. by apply bytes_find_Some in Hf as [_ Hn].
  - destruct (_ <? _); [by intros [= <-]|apply IH].
Qed.

(** X10. Whatever the source, the offset and the transform, a string
    returned by [get_cstring] contains no zero byte. *)
Theorem get_cstring_has_no_zero (fuel : nat) (self : Binary) (loc : Z)
    (func : PreprocessorFunc) (bs : bytes) :
  get_cstring fuel self loc func = Ok bs -> x00 ∉ bs.
Proof.
  intros H. apply bytes_find_None. by apply cstring_loop_no_zero in H.
Qed.

Lemma get_cstring_has_no_zero_witness : x00 ∉ [x68; x69].
Proof.
  apply (get_cstring_has_no_zero 1 hello_file 0 None [x68; x69]).
  reflexivity.
Defined.

(** ** Transforms *)

(** X11. [compose] applies the block transform first and the field
    transform to its output, an absent transform leaves the bytes alone,
    and composing three transforms does not depend on the grouping. *)
Theorem compose_applies_block_first (block field third : PreprocessorFunc)
    (bs : bytes) :
  apply_func (compose block field) bs = apply_func field (apply_func block bs) /\
  apply_func (compose None field) bs = apply_func field bs /\
  apply_func (compose block None) bs = apply_func block bs /\
  apply_func (compose (compose block field) third) bs =
  apply_func (compose block (compose field third)) bs.
Proof. destruct block, field, third; repeat split. Qed.

(** ** The selection of the next descriptor *)

Lemma get_next_field_cases (self : Reader) (queue : list Field) (loc : Z)
    (binary_size : option Z) :
  match get_next_field self queue loc binary_size with
  | (Ok None, queue') => queue' = queue
  | (Ok (Some f), queue') =>
      queue = f :: queue' \/
      (exists len, f = UnknownField len (Some loc) /\ 0 < len /\
                   queue' = queue /\ include_gaps (opts self) = true)
  | (Raise _, _) => False
  | (OutOfFuel, _) => False
  end.
Proof.
  unfold get_next_field, should_fill_blanks.
  destruct binary_size as [sz|].
  - destruct (Z.geb_spec loc sz); [reflexivity|].
    destruct queue as [|d rest].
    + destruct (include_gaps (opts self)) eqn:Hg; [|reflexivity].
      right. exists (sz - loc). split_and!; try done. lia.
    + destruct (get_start d) as [s|]; [|by left].
      destruct (Z.gtb_spec s loc).
      * destruct (include_gaps (opts self)) eqn:Hg; [|by left].
        right. exists (s - loc). split_and!; try done. lia.
      * destruct (Z.leb_spec s loc); [by left|lia].
  - destruct queue as [|d rest]; [reflexivity|].
    destruct (get_start d) as [s|]; [|by left].
    destruct (Z.gtb_spec s loc).
    + destruct (include_gaps (opts self)) eqn:Hg; [|by left].
      right. exists (s - loc). split_and!; try done. lia.
    + destruct (Z.leb_spec s loc); [by left|lia].
Qed.

(** X12. [__get_next_field] never raises.  What it hands out is nothing
    (queue untouched), the head of the queue (which it removes), or, with
    gap-filling on only, an Unknown that starts at the cursor and has a
    positive length (queue untouched). *)
Theorem get_next_field_shape (self : Reader) (queue : list Field) (loc : Z)
    (binary_size : option Z) :
  match get_next_field self queue loc binary_size with
  | (Ok None, queue') => queue' = queue
  | (Ok (Some f), queue') =>
      queue = f :: queue' \/
      (exists len, f = UnknownField len (Some loc) /\ 0 < len /\
                   queue' = queue /\ include_gaps (opts self) = true)
  | (Raise _, _) => False
  | (OutOfFuel, _) => False
  end.
Proof.
  unfold get_next_field, should_fill_blanks.
  destruct binary_size as [sz|].
  - destruct (Z.geb_spec loc sz); [reflexivity|].
    destruct queue as [|d rest].
    + destruct (include_gaps (opts self)) eqn:Hg; [|reflexivity].
      right. exists (sz - loc). split_and!; try done. lia.
    + destruct (get_start d) as [s|]; [|by left].
      destruct (Z.gtb_spec s loc).
      * destruct (include_gaps (opts self)) eqn:Hg; [|by left].
        right. exists (s - loc). split_and!; try done. lia.
      * destruct (Z.leb_spec s loc); [by left|lia].
  - destruct queue as [|d rest]; [reflexivity|].
    destruct (get_start d) as [s|]; [|by left].
    destruct (Z.gtb_spec s loc).
    + destruct (include_gaps (opts self)) eqn:Hg; [|by left].
      right. exists (s - loc). split_and!; try done. lia.
    + destruct (Z.leb_spec s loc); [by left|lia].
Qed.

(** ** Reads of a whole source *)

(** X13. A source whose size is zero or negative (an empty file, a nested
    block of length 0 or below) reads as the empty list, whatever the
    schema and the options, and leaves the reader untouched. *)
Theorem read_binary_of_empty_source (fuel : nat) (self : Reader)
    (binary : Binary) :
  get_size binary <= 0 ->
  read_binary (S fuel) self binary = (self, Ok (VList [])).
Proof.
  intros Hs. rewrite read_binary_S.
  unfold Reader_consume_struct, consume_struct. cbn [struct_loop].
  rewrite get_next_field_policy. unfold next_field_policy.
  destruct (Z.leb_spec (get_size binary) 0); [reflexivity|lia].
Qed.

Lemma read_binary_of_empty_source_witness :
  read_binary 1 (Reader_init length_prefixed_schema gap_opts None)
              (BinaryBlock ten_byte_file 3 (-2)) =
  (Reader_init length_prefixed_schema gap_opts None, Ok (VList [])).
Proof.
  apply (read_binary_of_empty_source
           0 (Reader_init length_prefixed_schema gap_opts None)
           (BinaryBlock ten_byte_file 3 (-2))).
  simpl. lia.
Defined.

Section LoopInvariants.

Variable read_sub : Reader -> Binary -> outcome Value.

Lemma consume_field_node (self self' : Reader) (field : Field) (binary : Binary)
    (cur_loc new_loc : Z) (data : FieldData) :
  consume_field read_sub self field binary cur_loc = (self', Ok (new_loc, data)) ->
  type data = get_type field /\
  location data = default cur_loc (get_start field) /\
  name data = get_label field (default cur_loc (get_start field)) /\
  vars self' = match get_name field with
               | Some n => <[n := val data]> (vars self)
               | None => vars self
               end.
Proof.
  unfold consume_field.
  destruct (decode_field _ _ _ _ _ _) as [[v l]| |]; try discriminate.
  intros [= <- <- <-]. split_and!; try reflexivity.
  by destruct (get_name field).
Qed.

(** Without gap-filling the nodes the loop adds are, in order, one per
    descriptor of a prefix of the queue. *)
Lemma struct_loop_nodes (fuel : nat) (length : option Z) (binary : Binary) :
  forall (self self' : Reader) (queue : list Field) (cur_loc end_loc : Z)
         (completed result : list FieldData),
    include_gaps (opts self) = false ->
    struct_loop read_sub fuel self length binary queue cur_loc completed
      = (self', Ok (end_loc, result)) ->
    exists added,
      result = (completed ++ added)%list /\
      map type added = map get_type (take (List.length added) queue).
Proof.
  induction fuel as [|fuel IH];
    intros self self' queue cur_loc end_loc completed result Hg; simpl;
    [discriminate|].
  pose proof (get_next_field_cases self queue cur_loc length) as Hshape.
  destruct (get_next_field self queue cur_loc length) as [[[f|]| |] queue'];
    try done.
  - destruct Hshape as [->|(len & _ & _ & _ & Hg')]; [|congruence].
    destruct (consume_field read_sub self f binary cur_loc)
      as [self1 [[l d]| |]] eqn:Hc; try discriminate.
    intros Hl.
    pose proof (consume_field_extends _ _ _ _ _ _ _ Hc) as (_ & Ho & _ & _).
    apply consume_field_node in Hc as (Ht & _).
    apply IH in Hl as (added & -> & Hm); [|congruence].
    exists (d :: added). split; [by rewrite <- app_assoc|].
    simpl. by rewrite Ht, Hm.
  - intros [= <- <- <-]. exists []. split; [by rewrite app_nil_r|reflexivity].
Qed.

(** The loop binds no name but those of the descriptors in the queue. *)
Lemma struct_loop_names (fuel : nat) (length : option Z) (binary : Binary) :
  forall (self self' : Reader) (queue : list Field) (cur_loc : Z)
         (completed : list FieldData) (o : outcome (Z * list FieldData)),
    struct_loop read_sub fuel self length binary queue cur_loc completed
      = (self', o) ->
    dom (vars self') ⊆ dom (vars self) ∪ field_names queue.
Proof.
  induction fuel as [|fuel IH]; intros self self' queue cur_loc completed o;
    simpl; [intros [= <- <-]; set_solver|].
  pose proof (get_next_field_cases self queue cur_loc length) as Hshape.
  destruct (get_next_field self queue cur_loc length) as [[[f|]| |] queue'];
    try done; [|intros [= <- <-]; set_solver].
  assert (Hq : field_names queue' ⊆ field_names queue /\
               match get_name f with
               | Some n => n ∈ field_names queue
               | None => True
               end).
  { destruct Hshape as [->|(len & -> & _ & -> & _)]; [|done].
    unfold field_names. simpl. destruct (get_name f); simpl; set_solver. }
  destruct Hq as [Hq Hn].
  destruct (consume_field read_sub self f binary cur_loc)
    as [self1 [[l d]| |]] eqn:Hc.
  - intros Hl. apply IH in Hl.
    apply consume_field_node in Hc as (_ & _ & _ & Hv).
    assert (dom (vars self1) ⊆ dom (vars self) ∪ field_names queue).
    { rewrite Hv. destruct (get_name f); [rewrite dom_insert_L|]; set_solver. }
    set_solver.
  - intros [= <- <-]. rewrite (consume_field_raise _ _ _ _ _ _ _ Hc). set_solver.
  - intros [= <- <-]. unfold consume_field in Hc.
    destruct (decode_field _ _ _ _ _ _) as [[v l]| |]; try discriminate.
    injection Hc as <-. set_solver.
Qed.

End LoopInvariants.

(** X14. Without gap-filling, the result of a read has one node per
    descriptor of a prefix of the schema, in the order of the schema and
    with the type tag of its descriptor: no descriptor is skipped or read
    twice, and nothing else is added. *)
Theorem read_binary_nodes_follow_schema (fuel : nat) (self self' : Reader)
    (binary : Binary) (result : list FieldData) :
  include_gaps (opts self) = false ->
  read_binary fuel self binary = (self', Ok (VList result)) ->
  (List.length result <= List.length (fields self))%nat /\
  map type result = map get_type (take (List.length result) (fields self)).
Proof.
  intros Hg. destruct fuel as [|fuel]; [discriminate|].
  rewrite read_binary_S. unfold Reader_consume_struct, consume_struct.
  rewrite !deepcopy_id.
  destruct (struct_loop _ _ _ _ _ _ _ _) as [s1 [[l c]| |]] eqn:Hl;
    try discriminate.
  intros [= <- <-].
  apply struct_loop_nodes in Hl as (added & -> & Hm); [|exact Hg].
  simpl. split; [|exact Hm].
  apply (f_equal (@List.length _)) in Hm.
  rewrite !length_map, length_take in Hm. lia.
Qed.

Lemma read_binary_nodes_follow_schema_witness :
  (List.length [mkFieldData "x" "u8" 2 (VInt 2)]
   <= List.length (fields (Reader_init byte_x_at_2 default_opts None)))%nat /\
  map type [mkFieldData "x" "u8" 2 (VInt 2)] =
  map get_type (take (List.length [mkFieldData "x" "u8" 2 (VInt 2)])
                     (fields (Reader_init byte_x_at_2 default_opts None))).
Proof.
  apply (read_binary_nodes_follow_schema
           5 (Reader_init byte_x_at_2 default_opts None)
           (set_var (Reader_init byte_x_at_2 default_opts None) "x" (VInt 2))
           ten_byte_file [mkFieldData "x" "u8" 2 (VInt 2)]).
  - reflexivity.
  - reflexivity.
Defined.

(** X15. A read binds in the reader's scope only names that the
    descriptors of the reader's own list carry: whatever the children of
    nested blocks bind never reaches it, with or without gap-filling and
    however the read ends. *)
Theorem read_binary_binds_only_own_names (fuel : nat) (self : Reader)
    (binary : Binary) :
  dom (vars (fst (read_binary fuel self binary))) ⊆
  dom (vars self) ∪ field_names (fields self).
Proof.
  destruct fuel as [|fuel]; [simpl; set_solver|].
  rewrite read_binary_S. unfold Reader_consume_struct, consume_struct.
  rewrite !deepcopy_id.
  destruct (struct_loop _ _ _ _ _ _ _ _) as [s1 o] eqn:Hl.
  apply struct_loop_names in Hl.
  by destruct o as [[l c]| |].
Qed.

(** ** Integer fields of any declared width, and transforms through a
    nested block *)

Lemma apply_func_compose (block field : PreprocessorFunc) (bs : bytes) :
  apply_func (compose block field) bs = apply_func field (apply_func block bs).
Proof. by destruct block, field. Qed.

Lemma supported_width (bits : Z) :
  existsb (Z.eqb bits) [8; 16; 32; 64] = true -> bits ∈ [8; 16; 32; 64].
Proof.
  cbn [existsb]. rewrite !orb_true_iff, !Z.eqb_eq.
  intros [->|[->|[->|[->|H]]]]; try discriminate; set_solver.
Qed.

Lemma consume_int_field read_sub (self : Reader) (bits : Z) (signed : bool)
    (name : option string) (start : option Z) (func : PreprocessorFunc)
    (binary : Binary) (cur : Z) :
  bits ∈ [8; 16; 32; 64] ->
  0 <= root_offset binary (default cur start) ->
  consume_field read_sub self (IntField bits signed name start func) binary cur =
  (match name with
   | Some n =>
       set_var self n
         (VInt (int_from_bytes
                  (apply_func (compose (preprocess self) func)
                              (available binary (default cur start) (bits / 8)))
                  (endianness binary) signed))
   | None => self
   end,
   Ok (default cur start + bits / 8,
       mkFieldData
         (get_label (IntField bits signed name start func) (default cur start))
         (get_type (IntField bits signed name start func))
         (default cur start)
         (VInt (int_from_bytes
                  (apply_func (compose (preprocess self) func)
                              (available binary (default cur start) (bits / 8)))
                  (endianness binary) signed)))).
Proof.
  intros Hb Hs.
  assert (Hw : 0 <= bits / 8).
  { repeat (apply elem_of_cons in Hb as [->|Hb]);
      [| | | |by apply elem_of_nil in Hb]; by vm_compute. }
  unfold consume_field.
  replace (get_start (IntField bits signed name start func)) with start
    by reflexivity.
  replace (get_preprocessor (IntField bits signed name start func)) with func
    by reflexivity.
  replace (get_name (IntField bits signed name start func)) with name
    by reflexivity.
  rewrite decode_int_field by assumption.
  rewrite get_bytes_available by assumption.
  cbn. by destruct name.
Qed.

(** X16. An integer descriptor built with an unsupported width is the
    32-bit descriptor: resolved at a position that is not negative in the
    file it decodes four bytes (or what is left of them), carries the type
    tag of the 32-bit field and advances the cursor by 4. *)
Theorem IntField_unsupported_width_is_32 (fuel : nat) (self : Reader) (bits : Z)
    (signed : bool) (name : option string) (start : option Z)
    (func : PreprocessorFunc) (binary : Binary) (cur : Z) :
  bits ∉ [8; 16; 32; 64] ->
  0 <= root_offset binary (default cur start) ->
  IntField bits signed name start func = IntField 32 signed name start func /\
  snd (Reader_consume_field fuel self (IntField bits signed name start func)
                            binary cur) =
  Ok (default cur start + 4,
      mkFieldData
        (get_label (IntField 32 signed name start func) (default cur start))
        (if signed then "i32" else "u32")
        (default cur start)
        (VInt (int_from_bytes
                 (apply_func (compose (preprocess self) func)
                             (available binary (default cur start) 4))
                 (endianness binary) signed))).
Proof.
  intros Hb Hs.
  assert (IntField bits signed name start func =
          IntField 32 signed name start func) as ->.
  { unfold IntField. destruct (existsb _ _) eqn:He; [|reflexivity].
    by apply supported_width in He. }
  split; [reflexivity|].
  unfold Reader_consume_field. rewrite consume_int_field by (set_solver || done).
  by destruct signed.
Qed.

(** A 12-bit field at offset 1 of the two-byte file. *)
Lemma IntField_unsupported_width_is_32_witness :
  IntField 12 false None (Some 1) None = IntField 32 false None (Some 1) None /\
  snd (Reader_consume_field 0 backward_reader
         (IntField 12 false None (Some 1) None) two_byte_file 0) =
  Ok (default 0 (Some 1) + 4,
      mkFieldData
        (get_label (IntField 32 false None (Some 1) None) (default 0 (Some 1)))
        (if false then "i32" else "u32")
        (default 0 (Some 1))
        (VInt (int_from_bytes
                 (apply_func (compose (preprocess backward_reader) None)
                             (available two_byte_file (default 0 (Some 1)) 4))
                 (endianness two_byte_file) false))).
Proof.
  apply (IntField_unsupported_width_is_32
           0 backward_reader 12 false None (Some 1) None two_byte_file 0).
  - intros H. repeat (apply elem_of_cons in H as [H|H]; [discriminate|]).
    by apply elem_of_nil in H.
  - simpl. lia.
Defined.

Lemma read_single_int (fuel : nat) (options : ReaderOpts)
    (pre : PreprocessorFunc) (bits : Z) (signed : bool) (iname : option string)
    (func : PreprocessorFunc) (view : Binary) :
  include_gaps options = false ->
  bits ∈ [8; 16; 32; 64] ->
  0 < get_size view ->
  0 <= root_offset view 0 ->
  snd (read_binary (S (S fuel))
         (Reader_init [IntField bits signed iname None func] options pre) view) =
  Ok (VList
        [mkFieldData (get_label (IntField bits signed iname None func) 0)
                     (get_type (IntField bits signed iname None func)) 0
                     (VInt (int_from_bytes
                              (apply_func (compose pre func)
                                          (available view 0 (bits / 8)))
                              (endianness view) signed))]).
Proof.
  intros Hg Hb Hsz Hro.
  rewrite read_binary_S. unfold Reader_consume_struct, consume_struct.
  rewrite !deepcopy_id.
  cbn [struct_loop fields Reader_init].
  rewrite get_next_field_policy. unfold next_field_policy at 1 2.
  destruct (Z.leb_spec (get_size view) 0); [lia|].
  cbn [get_start IntField fst snd].
  change (IntFieldObj (if existsb (Z.eqb bits) [8; 16; 32; 64] then bits else 32)
                      signed iname None func)
    with (IntField bits signed iname None func).
  rewrite consume_int_field by assumption.
  cbn [default].
  rewrite get_next_field_policy. unfold next_field_policy, should_fill_blanks.
  assert (Ho : include_gaps
                 (opts match iname with
                       | Some n =>
                           set_var
                             (Reader_init [IntField bits signed iname None func]
                                          options pre) n
                             (VInt (int_from_bytes
                                      (apply_func
                                         (compose
                                            (preprocess
                                               (Reader_init
                                                  [IntField bits signed iname
                                                            None func]
                                                  options pre)) func)
                                         (available view 0 (bits / 8)))
                                      (endianness view) signed))
                       | None =>
                           Reader_init [IntField bits signed iname None func]
                                       options pre
                       end) = false)
    by (destruct iname; exact Hg).
  rewrite Ho.
  destruct (_ <=? _); reflexivity.
Qed.

(** X17. Transforms chain outward-in through a nested block: an integer
    field inside a nested block is decoded from the bytes of the enclosing
    source at the block's start, passed first through the reader's ambient
    transform, then through the block's transform, then through the
    field's own. *)
Theorem nested_transforms_chain (fuel : nat) (self : Reader)
    (start : option Z) (len : Z) (name : option string)
    (block_func : PreprocessorFunc) (bits : Z) (signed : bool)
    (iname : option string) (func : PreprocessorFunc) (binary : Binary)
    (cur : Z) :
  include_gaps (opts self) = false ->
  bits ∈ [8; 16; 32; 64] ->
  0 < len ->
  0 <= root_offset binary (default cur start) ->
  snd (Reader_consume_field (S (S fuel)) self
         (NestedBlockField start (LenInt len) name
                           [IntField bits signed iname None func] block_func)
         binary cur) =
  Ok (default cur start,
      mkFieldData
        (get_label (NestedBlockField start (LenInt len) name
                      [IntField bits signed iname None func] block_func)
                   (default cur start))
        "nested" (default cur start)
        (VList
           [mkFieldData (get_label (IntField bits signed iname None func) 0)
                        (get_type (IntField bits signed iname None func)) 0
                        (VInt (int_from_bytes
                                 (apply_func func
                                    (apply_func block_func
                                       (apply_func (preprocess self)
                                          (available binary (default cur start)
                                                     (bits / 8)))))
                                 (endianness binary) signed))])).
Proof.
  intros Hg Hb Hlen Hro.
  unfold Reader_consume_field, consume_field, decode_field.
  cbn [get_type get_start get_preprocessor get_name get_length].
  eval_dispatch. cbn [mbind outcome_bind].
  rewrite read_single_int by assumption.
  cbn [mbind outcome_bind mret outcome_ret snd].
  rewrite !apply_func_compose.
  replace (available (BinaryBlock binary (default cur start) len) 0 (bits / 8))
    with (available binary (default cur start) (bits / 8))
    by (unfold available; simpl; by rewrite Z.add_0_l).
  reflexivity.
Qed.

(** The scenario of the driver script: a block whose bytes are XOR-ed
    with 0x73 before its children are decoded. *)
Lemma nested_transforms_chain_witness :
  snd (Reader_consume_field 2 backward_reader
         (NestedBlockField (Some 8) (LenInt 5) (Some "body")
                           [IntField 8 false None None None] (Some xor_73))
         length_prefixed_file 0) =
  Ok (default 0 (Some 8),
      mkFieldData
        (get_label (NestedBlockField (Some 8) (LenInt 5) (Some "body")
                      [IntField 8 false None None None] (Some xor_73))
                   (default 0 (Some 8)))
        "nested" (default 0 (Some 8))
        (VList
           [mkFieldData (get_label (IntField 8 false None None None) 0)
                        (get_type (IntField 8 false None None None)) 0
                        (VInt (int_from_bytes
                                 (apply_func None
                                    (apply_func (Some xor_73)
                                       (apply_func (preprocess backward_reader)
                                          (available length_prefixed_file
                                                     (default 0 (Some 8))
                                                     (8 / 8)))))
                                 (endianness length_prefixed_file) false))])).
Proof.
  apply (nested_transforms_chain
           0 backward_reader (Some 8) 5 (Some "body") (Some xor_73) 8 false
           None None length_prefixed_file 0).
  - reflexivity.
  - apply list_elem_of_here.
  - lia.
  - simpl. lia.
Defined.

(** ** Termination *)

Section GapLoop.

Variable read_sub : Reader -> Binary -> outcome Value.

(** With gap-filling on and the queue empty, the loop over a view that
    declares more bytes than the file holds behind it reaches the end of
    the file and then reads nothing, for ever. *)
Lemma gap_loop_never_ends (fuel : nat) (under : Binary) (s len : Z) :
  forall (self : Reader) (loc : Z) (completed : list FieldData),
    include_gaps (opts self) = true ->
    preprocess self = None ->
    0 <= root_offset under s ->
    0 <= loc <= Z.max 0 (Z.of_nat (List.length (root_contents under))
                         - root_offset under s) ->
    Z.max 0 (Z.of_nat (List.length (root_contents under))
             - root_offset under s) < len ->
    struct_loop read_sub fuel self (Some len) (BinaryBlock under s len) []
                loc completed = (self, OutOfFuel).
Proof.
  induction fuel as [|fuel IH]; intros self loc completed Hg Hp Hro Hloc Hlen;
    [reflexivity|].
  cbn [struct_loop]. rewrite get_next_field_policy.
  unfold next_field_policy, should_fill_blanks. rewrite Hg.
  destruct (Z.leb_spec len loc); [lia|].
  cbn [fst snd]. unfold Unknown_spanning, consume_field, decode_field.
  cbn [get_type get_start get_preprocessor get_name default]. eval_dispatch.
  change (id loc) with loc.
  rewrite Hp. cbn [compose]. rewrite BinaryBlock_get_bytes.
  assert (Hoff : root_offset under (loc + s) = root_offset under s + loc)
    by (rewrite Z.add_comm; apply root_offset_add).
  rewrite get_bytes_available by lia.
  cbn [apply_func mbind outcome_bind mret outcome_ret].
  apply IH; try assumption.
  pose proof (available_length under (loc + s) (len - loc)) as Hal.
  rewrite Hoff in Hal. lia.
Qed.

End GapLoop.

Lemma long_view_read_runs_out (fuel : nat) (under : Binary)
    (s len : Z) :
  0 <= root_offset under s ->
  Z.max 0 (Z.of_nat (List.length (root_contents under)) - root_offset under s)
    < len ->
  snd (read_binary fuel (Reader_init [] gap_opts None) (BinaryBlock under s len))
  = OutOfFuel.
Proof.
  intros Hro Hlen. destruct fuel as [|fuel]; [reflexivity|].
  rewrite read_binary_S. unfold Reader_consume_struct, consume_struct.
  cbn [deepcopy map fields Reader_init get_size BinaryBlock].
  rewrite (gap_loop_never_ends _ (S fuel) under s len); try done; lia.
Qed.

(** X18. With gap-filling on, a read over a view that declares more bytes
    than the file holds from the view's start on never returns: the
    Unknown synthesized for the remainder comes back short, the cursor
    stops short of the declared size and the next Unknown is empty, again
    and again.  However much fuel the run is given, it runs out. *)
Theorem gap_fill_over_long_view_never_returns (fuel : nat) (under : Binary)
    (s len : Z) :
  0 <= root_offset under s ->
  Z.max 0 (Z.of_nat (List.length (root_contents under)) - root_offset under s)
    < len ->
  snd (read_binary fuel (Reader_init [] gap_opts None) (BinaryBlock under s len))
  = OutOfFuel.
Proof.
  intros Hro Hlen. destruct fuel as [|fuel]; [reflexivity|].
  rewrite read_binary_S. unfold Reader_consume_struct, consume_struct.
  cbn [deepcopy map fields Reader_init get_size BinaryBlock].
  rewrite (gap_loop_never_ends _ (S fuel) under s len); try done; lia.
Qed.

Lemma gap_fill_over_long_view_never_returns_witness :
  snd (read_binary 1000 (Reader_init [] gap_opts None)
                   (BinaryBlock ten_byte_file 4 20)) = OutOfFuel.
Proof.
  apply (gap_fill_over_long_view_never_returns 1000 ten_byte_file 4 20).
  - simpl. lia.
  - simpl. lia.
Defined.

(** X19. Hence, with gap-filling on, a schema that opens with a nested
    block longer than a non-empty file never finishes reading that file,
    whatever follows the block in the schema. *)
Theorem gap_fill_long_nested_block_never_returns (fuel : nat)
    (contents : bytes) (e : Endianness) (len : Z) (name : option string)
    (rest : list Field) :
  contents <> [] ->
  Z.of_nat (List.length contents) < len ->
  snd (read_binary fuel
         (Reader_init (NestedBlockField None (LenInt len) name [] None :: rest)
                      gap_opts None)
         (BinaryFile contents e))
  = OutOfFuel.
Proof.
  intros Hne Hlen. destruct fuel as [|fuel]; [reflexivity|].
  rewrite read_binary_S. unfold Reader_consume_struct, consume_struct.
  rewrite !deepcopy_id.
  cbn [struct_loop fields Reader_init get_size].
  rewrite get_next_field_policy. unfold next_field_policy at 1 2.
  assert (0 < Z.of_nat (List.length contents))
    by (destruct contents; [done|simpl; lia]).
  destruct (Z.leb_spec (Z.of_nat (List.length contents)) 0); [lia|].
  cbn [get_start fst snd].
  unfold consume_field, decode_field.
  cbn [get_type get_start get_preprocessor get_name get_length default
       preprocess opts Reader_init compose].
  eval_dispatch. cbn [mbind outcome_bind].
  rewrite (long_view_read_runs_out fuel);
    [reflexivity|simpl; lia|simpl; lia].
Qed.

(** A block of twenty bytes at the head of the ten-byte file. *)
Lemma gap_fill_long_nested_block_never_returns_witness :
  snd (read_binary 50
         (Reader_init (NestedBlockField None (LenInt 20) None [] None :: [])
                      gap_opts None)
         (BinaryFile ten_bytes little))
  = OutOfFuel.
Proof.
  apply (gap_fill_long_nested_block_never_returns
           50 ten_bytes little 20 None []).
  - discriminate.
  - simpl. lia.
Defined.

Lemma get_bytes_ends (self : Binary) (start n : Z) (func : PreprocessorFunc) :
  get_bytes self start n func <> OutOfFuel.
Proof.
  revert start. induction self as [c e|u IH o e l]; intros start; simpl;
    [|apply IH].
  unfold file_seek, file_read.
  destruct (start <? 0); [discriminate|]. cbn.
  destruct (n <? -1); [discriminate|]. by destruct (n =? -1).
Qed.

Lemma get_length_ends (length : LengthSpec) (read_vars : gmap string Value) :
  get_length length read_vars <> OutOfFuel.
Proof.
  destruct length as [|n|x]; simpl; try done.
  by destruct (read_vars !! x) as [[]|].
Qed.

Lemma foldr_max_bound {A} (g : A -> nat) (l : list A) (n : nat) :
  (foldr Nat.max O (map g l) <= n)%nat -> Forall (fun x => (g x <= n)%nat) l.
Proof.
  induction l as [|x xs IH]; simpl; intros H; constructor; [lia|].
  apply IH. lia.
Qed.

Section WithoutGaps.

Variable read_sub : Reader -> Binary -> outcome Value.
Variable sub_fuel : nat.
Hypothesis read_sub_ends :
  forall r b, include_gaps (opts r) = false ->
              (fuel_needed (fields r) <= sub_fuel)%nat ->
              read_sub r b <> OutOfFuel.

Lemma decode_field_ends (self : Reader) (field : Field) (binary : Binary)
    (start_byte : Z) (preprocessor : PreprocessorFunc) :
  include_gaps (opts self) = false ->
  (field_fuel field <= sub_fuel)%nat ->
  decode_field read_sub self field binary start_byte preprocessor <> OutOfFuel.
Proof.
  intros Hg Hf. unfold decode_field, get_u8, get_i8, get_u16, get_i16, get_u32,
    get_i32, get_u64, get_i64.
  repeat (destruct (String.eqb _ _));
    try (destruct field; try done);
    try (match goal with
         | |- context [get_length ?l ?v] =>
             pose proof (get_length_ends l v); destruct (get_length l v)
         end; cbn; try done);
    try match goal with
        | |- context [get_bytes ?b ?s ?n ?p] =>
            pose proof (get_bytes_ends b s n p); by destruct (get_bytes b s n p)
        | |- context [read_sub ?r ?b] =>
            pose proof (read_sub_ends r b Hg Hf); by destruct (read_sub r b)
        end.
Qed.

Lemma struct_loop_ends (length : option Z) (binary : Binary) (fuel : nat) :
  forall (self : Reader) (queue : list Field) (cur_loc : Z)
         (completed : list FieldData),
    include_gaps (opts self) = false ->
    (List.length queue < fuel)%nat ->
    Forall (fun f => (field_fuel f <= sub_fuel)%nat) queue ->
    snd (struct_loop read_sub fuel self length binary queue cur_loc completed)
    <> OutOfFuel.
Proof.
  induction fuel as [|fuel IH]; intros self queue cur_loc completed Hg Hl Hq;
    [lia|].
  cbn [struct_loop].
  pose proof (get_next_field_cases self queue cur_loc length) as Hshape.
  destruct (get_next_field self queue cur_loc length) as [[[f|]| |] queue'];
    try done.
  destruct Hshape as [->|(len & _ & _ & _ & Hg')]; [|congruence].
  apply Forall_cons in Hq as [Hf Hq].
  destruct (consume_field read_sub self f binary cur_loc)
    as [self1 [[l d]| |]] eqn:Hc; try done.
  - pose proof (consume_field_extends _ _ _ _ _ _ _ Hc) as (_ & Ho & _ & _).
    apply IH; [congruence|simpl in Hl; lia|exact Hq].
  - exfalso. unfold consume_field in Hc.
    pose proof (decode_field_ends self f binary (default cur_loc (get_start f))
                  (compose (preprocess self) (get_preprocessor f)) Hg Hf).
    destruct (decode_field _ _ _ _ _ _) as [[v l]| |]; congruence.
Qed.

End WithoutGaps.

(** X20. Without gap-filling every read ends, with a result or with an
    exception: each turn of the struct loop removes a descriptor from the
    queue, at every depth of nesting.  In the model, fuel beyond
    [fuel_needed] of the schema is never used up. *)
Theorem read_binary_ends_without_gaps (fuel : nat) :
  forall (self : Reader) (binary : Binary),
    include_gaps (opts self) = false ->
    (fuel_needed (fields self) <= fuel)%nat ->
    snd (read_binary fuel self binary) <> OutOfFuel.
Proof.
  induction fuel as [|fuel IH]; intros self binary Hg Hf;
    [unfold fuel_needed in Hf; lia|].
  rewrite read_binary_S. unfold Reader_consume_struct, consume_struct.
  rewrite !deepcopy_id.
  unfold fuel_needed in Hf.
  pose proof (struct_loop_ends (fun r b => snd (read_binary fuel r b)) fuel IH
                (Some (get_size binary)) binary (S fuel) self (fields self) 0 []
                Hg) as Hl.
  destruct (struct_loop _ _ _ _ _ _ _ _) as [s1 [[l c]| |]]; try done.
  exfalso. apply Hl; [lia|apply foldr_max_bound; lia|reflexivity].
Qed.

Lemma read_binary_ends_without_gaps_witness :
  snd (read_binary 5 (Reader_init length_prefixed_schema default_opts None)
                   length_prefixed_file) <> OutOfFuel.
Proof.
  apply (read_binary_ends_without_gaps
           5 (Reader_init length_prefixed_schema default_opts None)
           length_prefixed_file).
  - reflexivity.
  - vm_compute. lia.
Defined.

(** ** One reader, several sources *)

Lemma covered_in_bound (bound : gset string) (queue : list Field) (x : string) :
  x ∈ bound -> covered_in bound queue x.
Proof.
  revert bound. induction queue as [|f rest IH]; intros bound Hx; simpl;
    [exact I|].
  split; [done|]. apply IH. set_solver.
Qed.

Lemma covered_in_no_lookup (bound : gset string) (queue : list Field)
    (x : string) :
  x ∉ length_names queue -> covered_in bound queue x.
Proof.
  revert bound. induction queue as [|f rest IH]; intros bound Hx; simpl;
    [exact I|].
  unfold length_names in *. simpl in Hx.
  destruct (length_name f) as [y|] eqn:Hf.
  - simpl in Hx. split; [intros [= ->]; set_solver|]. apply IH. set_solver.
  - split; [discriminate|]. by apply IH.
Qed.

Lemma covered_in_app (bound : gset string) (l1 l2 : list Field) (x : string) :
  covered_in bound l1 x ->
  covered_in (bound ∪ field_names l1) l2 x ->
  covered_in bound (l1 ++ l2) x.
Proof.
  revert bound. induction l1 as [|f rest IH]; intros bound H1 H2; simpl in *.
  - unfold field_names in H2. simpl in H2.
    by replace (bound ∪ ∅) with bound in H2 by set_solver.
  - destruct H1 as [Hf H1]. split; [exact Hf|]. apply IH; [exact H1|].
    replace (bound ∪ name_set f ∪ field_names rest)
      with (bound ∪ field_names (f :: rest)); [exact H2|].
    unfold field_names, name_set. simpl. destruct (get_name f); set_solver.
Qed.

Lemma length_names_snoc (pre : list Field) (f : Field) :
  length_names (pre ++ [f]) =
  length_names pre ∪ match length_name f with Some x => {[x]} | None => ∅ end.
Proof.
  unfold length_names. rewrite omap_app, list_to_set_app_L. simpl.
  destruct (length_name f); simpl; set_solver.
Qed.

Section Reuse.

Variable read_sub : Reader -> Binary -> outcome Value.

(** A descriptor that was resolved had the name of its length in scope. *)
Lemma consume_field_looked_up (self self' : Reader) (field : Field)
    (binary : Binary) (cur_loc new_loc : Z) (data : FieldData) (x : string) :
  consume_field read_sub self field binary cur_loc = (self', Ok (new_loc, data)) ->
  length_name field = Some x ->
  x ∈ dom (vars self).
Proof.
  intros Hc Hx. destruct field as [| |st [|n|y] nm subs fn| |]; try discriminate.
  injection Hx as ->.
  apply elem_of_dom. destruct (vars self !! x) eqn:Hv; [by eexists|].
  by rewrite consume_field_unbound in Hc.
Qed.

Lemma consume_field_step (s t s1 : Reader) (field : Field) (binary : Binary)
    (cur_loc : Z) (o : outcome (Z * FieldData)) :
  consume_field read_sub s field binary cur_loc = (s1, o) ->
  opts s = opts t -> preprocess s = preprocess t ->
  vars s ⊆ vars t ->
  (forall x, length_name field = Some x -> x ∈ dom (vars t) ->
             x ∈ dom (vars s)) ->
  exists t1,
    consume_field read_sub t field binary cur_loc = (t1, o) /\
    opts s1 = opts t1 /\ preprocess s1 = preprocess t1 /\
    vars s1 ⊆ vars t1 /\
    match o with
    | Ok _ => dom (vars s1) = dom (vars s) ∪ name_set field /\
              dom (vars t1) = dom (vars t) ∪ name_set field
    | _ => s1 = s /\ t1 = t
    end.
Proof.
  intros Hc Ho Hp Hsub Hlook.
  assert (Hlen : forall st len nm subs fn,
             field = NestedBlockField st len nm subs fn ->
             get_length len (vars s) = get_length len (vars t)).
  { intros st len nm subs fn ->. destruct len as [|n|x]; try reflexivity.
    simpl. destruct (vars s !! x) as [v|] eqn:Hx.
    - by rewrite (lookup_weaken _ _ _ _ Hx Hsub).
    - assert (vars t !! x = None) as ->; [|reflexivity].
      apply not_elem_of_dom. intros Hin.
      apply (Hlook x eq_refl), elem_of_dom in Hin as [v Hv]. congruence. }
  unfold consume_field in *. rewrite <- Hp.
  rewrite <- (decode_field_scope read_sub s t) by assumption.
  destruct (decode_field _ _ _ _ _ _) as [[v l]| |]; injection Hc as <- <-.
  - eexists. split; [reflexivity|]. unfold name_set.
    destruct (get_name field) as [n|]; simpl; split_and!; try assumption.
    + by apply insert_mono.
    + by rewrite dom_insert_L, (comm_L (∪)).
    + by rewrite dom_insert_L, (comm_L (∪)).
    + set_solver.
    + set_solver.
  - eexists. split; [reflexivity|]. split_and!; try assumption; reflexivity.
  - eexists. split; [reflexivity|]. split_and!; try assumption; reflexivity.
Qed.

(** The struct loop from an empty-born scope [s] and from a scope [t] that
    also holds names left by earlier reads, all of them covered in the
    schema [schema]: both runs end alike, and the names [t] ends with are
    covered too. *)
Lemma struct_loop_reuse (length : option Z) (binary : Binary)
    (schema : list Field) (fuel : nat) :
  forall (s t s' : Reader) (pre queue : list Field) (cur_loc : Z)
         (completed : list FieldData) (o : outcome (Z * list FieldData)),
    schema = (pre ++ queue)%list ->
    struct_loop read_sub fuel s length binary queue cur_loc completed = (s', o) ->
    opts s = opts t -> preprocess s = preprocess t ->
    vars s ⊆ vars t ->
    (forall x, x ∈ dom (vars t) -> covered_in (dom (vars s)) queue x) ->
    (forall x, x ∈ dom (vars t) -> covered_in ∅ schema x) ->
    length_names pre ⊆ dom (vars t) ->
    exists t',
      struct_loop read_sub fuel t length binary queue cur_loc completed
        = (t', o) /\
      (forall x, x ∈ dom (vars t') -> covered_in ∅ schema x).
Proof.
  induction fuel as [|fuel IH];
    intros s t s' pre queue cur_loc completed o Hq Hl Ho Hp Hsub Hb Hc Hd.
  { injection Hl as <- <-. by exists t. }
  cbn [struct_loop] in *.
  rewrite !get_next_field_policy in *. unfold should_fill_blanks in *.
  rewrite <- Ho.
  pose proof (get_next_field_cases s queue cur_loc length) as Hshape.
  rewrite get_next_field_policy in Hshape. unfold should_fill_blanks in Hshape.
  destruct (next_field_policy _ _ _ _) as [[f|] queue']; cbn [fst snd] in *;
    [|injection Hl as <- <-; by exists t].
  destruct (consume_field read_sub s f binary cur_loc) as [s1 o1] eqn:Hcs.
  destruct (consume_field_step s t s1 f binary cur_loc o1 Hcs Ho Hp Hsub)
    as (t1 & Hct & Ho1 & Hp1 & Hsub1 & Hdom).
  { intros x Hx Hin. destruct Hshape as [->|(len & -> & _)]; [|discriminate].
    by apply (Hb x Hin). }
  rewrite Hct.
  destruct o1 as [[l d]| |]; cycle 1.
  { destruct Hdom as [-> ->]. injection Hl as <- <-. by exists t. }
  { destruct Hdom as [-> ->]. injection Hl as <- <-. by exists t. }
  destruct Hdom as [Hds Hdt].
  destruct Hshape as [->|(len & -> & _ & -> & _)].
  - (* the head of the queue was taken *)
    apply (IH s1 t1 s' (pre ++ [f])%list queue' _ _ o); try assumption.
    + by rewrite <- app_assoc.
    + intros x Hx. rewrite Hdt in Hx. rewrite Hds.
      apply elem_of_union in Hx as [Hx|Hx].
      * by apply (Hb x Hx).
      * apply covered_in_bound. set_solver.
    + intros x Hx. rewrite Hdt in Hx.
      destruct (decide (x ∈ dom (vars t))) as [Hin|Hnin]; [by apply Hc|].
      rewrite Hq. apply covered_in_app.
      * apply covered_in_no_lookup. set_solver.
      * simpl. split.
        -- intros Hlen. exfalso. apply Hnin.
           by apply (consume_field_looked_up _ _ _ _ _ _ _ _ Hct).
        -- apply covered_in_bound. set_solver.
    + rewrite length_names_snoc, Hdt.
      destruct (length_name f) as [y|] eqn:Hy; [|set_solver].
      pose proof (consume_field_looked_up _ _ _ _ _ _ _ _ Hct Hy). set_solver.
  - (* a gap was synthesized; the queue is as it was *)
    assert (dom (vars s1) = dom (vars s)) as Hds'
      by (rewrite Hds; unfold name_set; simpl; set_solver).
    assert (dom (vars t1) = dom (vars t)) as Hdt'
      by (rewrite Hdt; unfold name_set; simpl; set_solver).
    apply (IH s1 t1 s' pre queue _ _ o); try assumption.
    + intros x Hx. rewrite Hds'. apply Hb. by rewrite <- Hdt'.
    + intros x Hx. apply Hc. by rewrite <- Hdt'.
    + by rewrite Hdt'.
Qed.

End Reuse.

Lemma read_binary_reuse (fuel : nat) (s t : Reader) (binary : Binary) :
  fields s = fields t -> opts s = opts t -> preprocess s = preprocess t ->
  vars s = ∅ ->
  (forall x, x ∈ dom (vars t) -> covered_in ∅ (fields t) x) ->
  snd (read_binary fuel t binary) = snd (read_binary fuel s binary) /\
  (forall x, x ∈ dom (vars (fst (read_binary fuel t binary))) ->
             covered_in ∅ (fields t) x).
Proof.
  intros Hf Ho Hp Hv Hc. destruct fuel as [|fuel]; [by split|].
  rewrite !read_binary_S. unfold Reader_consume_struct, consume_struct.
  rewrite !deepcopy_id, Hf.
  destruct (struct_loop _ (S fuel) s _ _ _ _ _) as [s' o] eqn:Hl.
  destruct (struct_loop_reuse _ (Some (get_size binary)) binary (fields t)
              (S fuel) s t s' [] (fields t) 0 [] o eq_refl Hl Ho Hp)
    as (t' & Hlt & Hc'); try assumption.
  - rewrite Hv. apply map_empty_subseteq.
  - intros x Hx. rewrite Hv, dom_empty_L. by apply Hc.
  - set_solver.
  - rewrite Hlt. by destruct o as [[l c]| |].
Qed.

Lemma read_all_covered (fuel : nat) (sources : list Binary) :
  forall self : Reader,
    (forall x, x ∈ dom (vars self) -> covered_in ∅ (fields self) x) ->
    forall x, x ∈ dom (vars (read_all fuel self sources)) ->
              covered_in ∅ (fields self) x.
Proof.
  induction sources as [|b rest IH]; intros self Hc; [exact Hc|].
  cbn [read_all].
  pose proof (read_binary_extends fuel self b) as (Hf & Ho & Hp & _).
  destruct (read_binary_reuse fuel
              (Reader_init (fields self) (opts self) (preprocess self))
              self b eq_refl eq_refl eq_refl eq_refl Hc) as [_ Hc'].
  rewrite <- Hf. apply IH. by rewrite Hf.
Qed.

(** X21. A reader can be reused: after any number of reads of any sources,
    a read returns what a newly constructed reader with the same schema,
    options and transform returns for that source.  The names that earlier
    reads left in the scope are never seen: a nested block can only look up
    a name that this read has bound again before. *)
Theorem reused_reader_reads_like_new :
  forall (fuel fuel' : nat) (fields : list Field) (options : ReaderOpts)
         (preprocess : PreprocessorFunc) (sources : list Binary)
         (binary : Binary),
    snd (read_binary fuel'
           (read_all fuel (Reader_init fields options preprocess) sources)
           binary) =
    snd (read_binary fuel' (Reader_init fields options preprocess) binary).
Proof.
  intros fuel fuel' fs options pre sources binary.
  set (r0 := Reader_init fs options pre).
  pose proof (read_all_extends fuel sources r0) as (Hf & Ho & Hp & _).
  apply read_binary_reuse; try done.
  rewrite Hf. apply read_all_covered. intros x Hx.
  unfold r0 in Hx. cbn [vars Reader_init] in Hx. set_solver.
Qed.

(** The length-prefixed schema, read on a short file first. *)
Example reused_reader_example :
  snd (read_binary 5
         (read_all 5 (Reader_init length_prefixed_schema default_opts None)
                   [three_byte_file; ten_byte_file])
         length_prefixed_file) = Ok length_prefixed_tree.
Proof. reflexivity. Qed.

(** ** Gap-filling over a file *)

Section GapsOnFile.

Variable read_sub : Reader -> Binary -> outcome Value.

Lemma decode_field_ends_flat (self : Reader) (field : Field) (binary : Binary)
    (start_byte : Z) (preprocessor : PreprocessorFunc) :
  is_nested field = false ->
  decode_field read_sub self field binary start_byte preprocessor <> OutOfFuel.
Proof.
  intros Hn. unfold decode_field, get_u8, get_i8, get_u16, get_i16, get_u32,
    get_i32, get_u64, get_i64.
  repeat (destruct (String.eqb _ _));
    try (destruct field; try done);
    try match goal with
        | |- context [get_bytes ?b ?s ?n ?p] =>
            pose proof (get_bytes_ends b s n p); by destruct (get_bytes b s n p)
        end.
Qed.

(** A synthesized gap read from a file: it fails on a negative cursor and
    otherwise moves the cursor to the end of the gap or of the file,
    whichever comes first. *)
Lemma consume_gap_on_file (self : Reader) (contents : bytes) (e : Endianness)
    (len loc cur : Z) :
  preprocess self = None -> 0 < len ->
  exists o,
    consume_field read_sub self (UnknownField len (Some loc))
                  (BinaryFile contents e) cur = (self, o) /\
    (o = Raise OSError \/
     exists d,
       o = Ok (loc + Z.min len (Z.max 0 (Z.of_nat (List.length contents) - loc)),
               d)).
Proof.
  intros Hp Hlen. unfold consume_field, decode_field.
  cbn [get_type get_start get_preprocessor get_name default]. eval_dispatch.
  change (id loc) with loc. rewrite Hp. cbn [compose].
  destruct (Z.ltb_spec loc 0) as [Hneg|Hpos].
  - eexists. split; [|by left]. cbn [get_bytes]. unfold file_seek.
    destruct (Z.ltb_spec loc 0); [reflexivity|lia].
  - rewrite get_bytes_available by (simpl; lia).
    cbn [apply_func mbind outcome_bind mret outcome_ret].
    eexists. split; [reflexivity|]. right. eexists. f_equal. f_equal.
    f_equal. rewrite available_length by (simpl; lia). reflexivity.
Qed.

Lemma struct_loop_ends_on_file (contents : bytes) (e : Endianness) (fuel : nat) :
  forall (self : Reader) (queue : list Field) (cur_loc : Z)
         (completed : list FieldData),
    preprocess self = None ->
    Forall (fun f => is_nested f = false) queue ->
    (2 * List.length queue + 2 <= fuel)%nat \/
    ((2 * List.length queue + 1 <= fuel)%nat /\
     settled self queue cur_loc (Z.of_nat (List.length contents))) ->
    snd (struct_loop read_sub fuel self
                     (Some (Z.of_nat (List.length contents)))
                     (BinaryFile contents e) queue cur_loc completed)
    <> OutOfFuel.
Proof.
  induction fuel as [|fuel IH]; intros self queue cur_loc completed Hp Hq Hf;
    [lia|].
  cbn [struct_loop]. rewrite get_next_field_policy.
  unfold next_field_policy, should_fill_blanks.
  set (n := Z.of_nat (List.length contents)) in *.
  destruct (Z.leb_spec n cur_loc) as [Hend|Hmore]; [done|].
  destruct queue as [|f rest].
  - (* after the last descriptor *)
    destruct (include_gaps (opts self)) eqn:Hg; [|done]. cbn [fst snd].
    unfold Unknown_spanning.
    assert (Hpos : 0 < n - cur_loc) by lia.
    destruct (consume_gap_on_file self contents e (n - cur_loc) cur_loc cur_loc
                Hp Hpos) as (o & -> & [->|(d & ->)]); [done|].
    fold n. apply IH; try done.
    right. split; [|left; lia].
    destruct Hf as [Hf|[_ Hset]]; [simpl in Hf |- *; lia|].
    exfalso. destruct Hset as [?|[?|(f' & r' & ? & _)]];
      [lia|congruence|discriminate].
  - apply Forall_cons in Hq as [Hfn Hq].
    assert (Hpop :
              snd (let (self', o) := consume_field read_sub self f
                                       (BinaryFile contents e) cur_loc in
                   match o with
                   | Ok (new_loc, data) =>
                       struct_loop read_sub fuel self' (Some n)
                                   (BinaryFile contents e) rest new_loc
                                   (completed ++ [data])
                   | Raise e0 => (self', Raise e0)
                   | OutOfFuel => (self', OutOfFuel)
                   end) <> OutOfFuel).
    { destruct (consume_field read_sub self f (BinaryFile contents e) cur_loc)
        as [self1 [[l d]| |]] eqn:Hc; try done.
      - pose proof (consume_field_extends _ _ _ _ _ _ _ Hc) as (_ & _ & Hp1 & _).
        apply IH; try done; [congruence|].
        left. simpl in Hf. destruct Hf as [Hf|[Hf _]]; lia.
      - exfalso. unfold consume_field in Hc.
        pose proof (decode_field_ends_flat self f (BinaryFile contents e)
                      (default cur_loc (get_start f))
                      (compose (preprocess self) (get_preprocessor f)) Hfn).
        destruct (decode_field _ _ _ _ _ _) as [[v l]| |]; congruence. }
    destruct (get_start f) as [s|] eqn:Hs; [|exact Hpop].
    destruct (Z.ltb_spec cur_loc s) as [Hgap|Hnogap]; [|exact Hpop].
    destruct (include_gaps (opts self)) eqn:Hg; [|exact Hpop].
    (* a gap before the head of the queue *)
    cbn [fst snd]. unfold Unknown_spanning.
    assert (Hpos : 0 < s - cur_loc) by lia.
    destruct (consume_gap_on_file self contents e (s - cur_loc) cur_loc cur_loc
                Hp Hpos) as (o & -> & [->|(d & ->)]); [done|].
    fold n. apply IH; try done; [by constructor|].
    right. split.
    + destruct Hf as [Hf|[_ Hset]]; [lia|].
      exfalso.
      destruct Hset as [?|[?|(f' & r' & [= <- <-] & [?|(s' & Hs' & ?)])]];
        [lia|congruence|congruence|].
      assert (s' = s) by congruence. lia.
    + unfold settled. destruct (Z.le_gt_cases n s).
      * left. lia.
      * right. right. exists f, rest. split; [done|]. right. exists s.
        split; [done|lia].
Qed.

End GapsOnFile.

(** X22. Over a file, with no ambient transform and a schema without
    nested blocks, a read ends with or without gap-filling: a gap is
    followed by the descriptor it leads to or by the end of the file, so
    twice the number of descriptors plus two turns of the loop always
    suffice. *)
Theorem read_binary_ends_on_file (fuel : nat) (schema : list Field)
    (options : ReaderOpts) (contents : bytes) (e : Endianness) :
  Forall (fun f => is_nested f = false) schema ->
  (2 * List.length schema + 2 <= fuel)%nat ->
  snd (read_binary fuel (Reader_init schema options None)
                   (BinaryFile contents e)) <> OutOfFuel.
Proof.
  intros Hn Hf. destruct fuel as [|fuel]; [lia|].
  rewrite read_binary_S. unfold Reader_consume_struct, consume_struct.
  rewrite !deepcopy_id. cbn [get_size fields Reader_init].
  pose proof (struct_loop_ends_on_file
                (fun r b => snd (read_binary fuel r b)) contents e (S fuel)
                (Reader_init schema options None) schema 0 [] eq_refl
                Hn (or_introl Hf)) as Hl.
  destruct (struct_loop _ _ _ _ _ _ _ _) as [s1 [[l c]| |]]; try done.
Qed.

Lemma read_binary_ends_on_file_witness :
  snd (read_binary 5 (Reader_init byte_x_at_2 gap_opts None)
                   (BinaryFile ten_bytes little)) <> OutOfFuel.
Proof.
  apply (read_binary_ends_on_file 5 byte_x_at_2 gap_opts ten_bytes little).
  - repeat constructor.
  - simpl. lia.
Defined.

(** ** Length references to values that are not integers *)

(** X23. A length reference resolves only to an integer: when the name is
    bound to anything else (the list of a nested block, the [None] of a
    struct), resolving the block fails with a [ValueError] before the
    nested read starts, and the scope is left as it was. *)
Theorem length_reference_must_be_integer (fuel : nat) (self : Reader)
    (start : option Z) (x : string) (name : option string)
    (subfields : list Field) (func : PreprocessorFunc) (binary : Binary)
    (cur : Z) (v : Value) :
  vars self !! x = Some v ->
  (forall n, v <> VInt n) ->
  exists msg,
    Reader_consume_field fuel self
      (NestedBlockField start (LenName x) name subfields func) binary cur
    = (self, Raise (ValueError msg)).
Proof.
  intros Hx Hv. unfold Reader_consume_field, consume_field, decode_field.
  cbn [get_type get_start]. eval_dispatch.
  cbn [get_length]. rewrite Hx.
  destruct v as [|n|bs|items]; try (eexists; reflexivity).
  by destruct (Hv n).
Qed.

Lemma length_reference_must_be_integer_witness :
  exists msg,
    Reader_consume_field 5
      (set_var (Reader_init [block_named_a; block_by_a] default_opts None)
               "a" (VList []))
      (NestedBlockField (Some 1) (LenName "a") None [] None) ten_byte_file 0
    = (set_var (Reader_init [block_named_a; block_by_a] default_opts None)
               "a" (VList []),
       Raise (ValueError msg)).
Proof.
  apply (length_reference_must_be_integer
           5 (set_var (Reader_init [block_named_a; block_by_a] default_opts None)
                      "a" (VList []))
           (Some 1) "a" None [] None ten_byte_file 0 (VList [])).
  - reflexivity.
  - discriminate.
Defined.

(** ** C7: the selection policy and the end of the loop *)

Lemma struct_loop_S read_sub (fuel : nat) (self : Reader) (length : option Z)
    (binary : Binary) (queue : list Field) (cur_loc : Z)
    (completed : list FieldData) :
  struct_loop read_sub (S fuel) self length binary queue cur_loc completed =
  match get_next_field self queue cur_loc length with
  | (Ok None, _) => (self, Ok (cur_loc, completed))
  | (Ok (Some next_field), queue') =>
      match consume_field read_sub self next_field binary cur_loc with
      | (self', Ok (new_loc, data)) =>
          struct_loop read_sub fuel self' length binary queue' new_loc
                      (completed ++ [data])
      | (self', Raise e) => (self', Raise e)
      | (self', OutOfFuel) => (self', OutOfFuel)
      end
  | (Raise e, _) => (self, Raise e)
  | (OutOfFuel, _) => (self, OutOfFuel)
  end.
Proof. reflexivity. Qed.

(** C7 (the code departs from it). Step by step [__get_next_field] hands
    out what the policy says, and over a ten-byte file the schema
    [[u8 "x" at 2]] with gap-filling on gives the three siblings.  But the
    loop does not stop after the Unknown it synthesizes for an empty queue:
    it goes on until the cursor has reached the bound.  Over the ten-byte
    source [ten_byte_view] the Unknown for [[3, 10)] comes back with two
    bytes and leaves the cursor at 5; the next step synthesizes a further
    Unknown, for [[5, 10)], which comes back empty and leaves the cursor at
    5, and so on: the read yields no result, whatever the fuel. *)
Theorem C7_loop_does_not_stop_after_last_gap :
  (forall self queue cur limit,
      get_next_field self queue cur limit =
      (Ok (fst (next_field_policy (include_gaps (opts self)) queue cur limit)),
       snd (next_field_policy (include_gaps (opts self)) queue cur limit)))
  /\
  (forall b0 b1 b2 b3 b4 b5 b6 b7 b8 b9 e,
      snd (read_binary 5 (Reader_init byte_x_at_2 gap_opts None)
             (BinaryFile [b0; b1; b2; b3; b4; b5; b6; b7; b8; b9] e)) =
      Ok (VList
            [mkFieldData "untitled_unknown_field_0x0" "unknown" 0
                         (VBytes [b0; b1]);
             mkFieldData "x" "u8" 2 (VInt (int_from_bytes [b2] e false));
             mkFieldData "untitled_unknown_field_0x3" "unknown" 3
                         (VBytes [b3; b4; b5; b6; b7; b8; b9])]))
  /\
  get_size ten_byte_view = 10
  /\
  snd (Reader_consume_field 0 (Reader_init [] gap_opts None)
         (UnknownField 7 (Some 3)) ten_byte_view 3) =
    Ok (5, mkFieldData "untitled_unknown_field_0x3" "unknown" 3
                       (VBytes [x08; x09]))
  /\
  get_next_field (Reader_init [] gap_opts None) [] 5 (Some 10) =
    (Ok (Some (UnknownField 5 (Some 5))), [])
  /\
  snd (Reader_consume_field 0 (Reader_init [] gap_opts None)
         (UnknownField 5 (Some 5)) ten_byte_view 5) =
    Ok (5, mkFieldData "untitled_unknown_field_0x5" "unknown" 5 (VBytes []))
  /\
  (forall fuel,
      snd (read_binary fuel (Reader_init byte_x_at_2 gap_opts None)
                       ten_byte_view) = OutOfFuel).
Proof.
  split_and!.
  - intros. apply get_next_field_policy.
  - intros. reflexivity.
  - reflexivity.
  - reflexivity.
  - reflexivity.
  - reflexivity.
  - intros fuel. destruct fuel as [|[|[|[|fuel]]]]; try reflexivity.
    rewrite read_binary_S. unfold Reader_consume_struct, consume_struct.
    rewrite !deepcopy_id.
    change (fields (Reader_init byte_x_at_2 gap_opts None)) with byte_x_at_2.
    change (get_size ten_byte_view) with 10.
    do 4 (rewrite struct_loop_S;
          match goal with
          | |- context [get_next_field ?a ?b ?c ?d] =>
              let r := eval vm_compute in (get_next_field a b c d) in
              change (get_next_field a b c d) with r
          end;
          cbv iota beta;
          match goal with
          | |- context [consume_field ?rs ?a ?b ?c ?d] =>
              let r := eval vm_compute in (consume_field rs a b c d) in
              change (consume_field rs a b c d) with r
          end;
          cbv iota beta).
    unfold ten_byte_view.
    rewrite (gap_loop_never_ends _ fuel ten_byte_file 5 10);
      [reflexivity|reflexivity|reflexivity|simpl; lia|simpl; lia|simpl; lia].
Qed.
